(** * prefect_snowflake.database: connection parameters, the asynchronous
      submit / poll / fetch protocol and the multi-query runner.

    The development follows [src/prefect_snowflake/database.py].  Python
    dictionaries are finite maps with string keys, exceptions are an explicit
    error result, and the Snowflake driver (connection, cursor, event loop)
    is an interface whose every call is recorded in a trace. *)

From stdpp Require Import base option list strings gmap fin_maps.
From Stdlib Require Import ZArith Lia.

Local Open Scope string_scope.
Local Open Scope list_scope.

(** ** Python values and exceptions *)

(** The values that occur in the connect-parameter dictionary.  [VSecretStr]
    and [VSecretBytes] are pydantic's wrapped secrets, [VNone] is [None]. *)
Inductive pyval :=
  | VNone
  | VStr (s : string)
  | VBytes (b : string)
  | VBool (b : bool)
  | VInt (z : Z)
  | VSecretStr (s : string)
  | VSecretBytes (b : string).

#[global] Instance pyval_eq_dec : EqDecision pyval.
Proof. solve_decision. Defined.

(** Exceptions.  [KeyError] and [AttributeError] are raised by the code of
    the module itself; the others come from the driver or the event loop
    ([CancelledError] is what [asyncio.sleep] raises in a cancelled task). *)
Inductive exn :=
  | KeyError (key : string)
  | AttributeError (attr : string)
  | ConnectionError
  | SubmissionError
  | StatusError
  | CancelledError
  | OtherError (msg : string).

#[global] Instance exn_eq_dec : EqDecision exn.
Proof. solve_decision. Defined.

(** Result of a call that either returns or raises. *)
Inductive result (A : Type) :=
  | Ok (a : A)
  | Raise (e : exn).
Arguments Ok {A} a.
Arguments Raise {A} e.

Definition result_bind {A B} (r : result A) (k : A → result B) : result B :=
  match r with
  | Ok a => k a
  | Raise e => Raise e
  end.

Notation "'let?' x ':=' r 'in' k" := (result_bind r (λ x, k))
  (at level 10, x name, r at level 100, k at level 200).

(** ** Connection configurator *)

(** The credentials block as [_get_connect_params] sees it: the dictionary
    [credentials.dict()] and the outcome of [credentials.resolve_private_key()]
    (the DER bytes, or [None]).  The class itself lives in
    [prefect_snowflake.credentials]; both are taken as given. *)
Record SnowflakeCredentials := {
  dict : gmap string pyval;
  resolve_private_key : option string;
}.

Record SnowflakeConnector := {
  database : string;
  warehouse : string;
  schema_ : string;
  credentials : SnowflakeCredentials;
}.

(** [value.get_secret_value()]: defined on the wrapped secrets only. *)
Definition get_secret_value (v : pyval) : result pyval :=
  match v with
  | VSecretStr s => Ok (VStr s)
  | VSecretBytes b => Ok (VBytes b)
  | _ => Raise (AttributeError "get_secret_value")
  end.

(** The literal part of the dictionary display of lines 54-59. *)
Definition base_params (self : SnowflakeConnector) : gmap string pyval :=
  <["database" := VStr (database self)]>
  (<["warehouse" := VStr (warehouse self)]>
  (<["schema" := VStr (schema_ self)]>
  (<["application" := VStr "Prefect_Snowflake_Collection"]> ∅))).

(** [{..., **self.credentials.dict()}]: the unpacked entries come last and
    win over the literal ones. *)
Definition merged_params (self : SnowflakeConnector) : gmap string pyval :=
  dict (credentials self) ∪ base_params self.

(** Lines 63-66: keep the entries whose value is not [None]. *)
Definition filter_unset (m : gmap string pyval) : gmap string pyval :=
  filter (λ kv, kv.2 ≠ VNone) m.

(** One round of the loop of lines 68-70. *)
Definition reveal (param : string) (m : gmap string pyval)
  : result (gmap string pyval) :=
  match m !! param with
  | Some v => let? v' := get_secret_value v in Ok (<[param := v']> m)
  | None => Ok m
  end.

(** Lines 72-74.  [dict.pop(key)] without a default raises [KeyError] when
    the key is absent. *)
Definition set_authenticator (m : gmap string pyval)
  : result (gmap string pyval) :=
  if decide (m !! "authenticator" = Some (VStr "okta_endpoint")) then
    match m !! "okta_endpoint" with
    | Some endpoint => Ok (<["authenticator" := endpoint]> (delete "okta_endpoint" m))
    | None => Raise (KeyError "okta_endpoint")
    end
  else Ok m.

(** Lines 76-79. *)
Definition set_private_key (private_der_key : option string)
  (m : gmap string pyval) : gmap string pyval :=
  match private_der_key with
  | Some der => delete "password" (<["private_key" := VBytes der]> m)
  | None => m
  end.

Definition _get_connect_params (self : SnowflakeConnector)
  : result (gmap string pyval) :=
  let connect_params := merged_params self in
  let connect_params := filter_unset connect_params in
  let? connect_params := reveal "password" connect_params in
  let? connect_params := reveal "private_key" connect_params in
  let? connect_params := reveal "token" connect_params in
  let? connect_params := set_authenticator connect_params in
  Ok (set_private_key (resolve_private_key (credentials self)) connect_params).

(** ** The driver interface and the execution monad *)

Definition qid := string.
Definition row := list pyval.
Definition rows := list row.
(** [params]: [None], or the bindings of the placeholders. *)
Definition qparams := option (gmap string pyval).
(** Extra keyword arguments ([**execute_kwargs]).  The calls of lines 138
    and 279 pass [params] themselves, so a mapping with the key [params] is
    refused by Python when the call is made (a keyword given twice), before
    the driver is reached.  That refusal is not modelled: a run of the model
    with such a mapping is not a run of the code. *)
Definition kwargs := gmap string pyval.
(** The cursor classes of [snowflake.connector.cursor]. *)
Inductive cursor_class := SnowflakeCursor | DictCursor.
(** References to Python list objects. *)
Definition loc := nat.

Definition BEGIN_TRANSACTION_STATEMENT : string := "BEGIN TRANSACTION".
Definition END_TRANSACTION_STATEMENT : string := "COMMIT".

(** What the module calls on [snowflake.connector] and on the event loop.
    Every call takes the state of the outside world (server, session, task)
    and returns or raises; [St] and the type [status] of query statuses
    belong to the driver.  Closing a cursor or a connection does not raise. *)
Class Driver (St status : Type) := {
  connect : gmap string pyval → St → result unit * St;
  cursor : cursor_class → St → result unit * St;
  execute_async : string → qparams → kwargs → St → result qid * St;
  get_query_status_throw_if_error : qid → St → result status * St;
  is_still_running : status → bool;
  sleep : Z → St → result unit * St;
  get_results_from_sfqid : qid → St → result unit * St;
  fetchone : St → result (option row) * St;
  fetchmany : option Z → St → result rows * St;
  fetchall : St → result rows * St;
  execute : string → qparams → kwargs → St → result unit * St;
  cursor_close : St → St;
  connection_close : St → St;
}.

(** One entry of the trace per call on the driver, with what it returned. *)
Inductive event (status : Type) :=
  | EvConnect (p : gmap string pyval) (r : result unit)
  | EvCursor (c : cursor_class) (r : result unit)
  | EvExecuteAsync (q : string) (p : qparams) (kw : kwargs) (r : result qid)
  | EvStatus (id : qid) (r : result status)
  | EvSleep (secs : Z) (r : result unit)
  | EvGetResults (id : qid) (r : result unit)
  | EvFetchOne (r : result (option row))
  | EvFetchMany (size : option Z) (r : result rows)
  | EvFetchAll (r : result rows)
  | EvExecute (q : string) (p : qparams) (kw : kwargs) (r : result unit)
  | EvCursorClose
  | EvConnectionClose.
Arguments EvConnect {status} p r.
Arguments EvCursor {status} c r.
Arguments EvExecuteAsync {status} q p kw r.
Arguments EvStatus {status} id r.
Arguments EvSleep {status} secs r.
Arguments EvGetResults {status} id r.
Arguments EvFetchOne {status} r.
Arguments EvFetchMany {status} size r.
Arguments EvFetchAll {status} r.
Arguments EvExecute {status} q p kw r.
Arguments EvCursorClose {status}.
Arguments EvConnectionClose {status}.

(** How a coroutine ends: it returns, it raises, or (in the model only) the
    poll loop has used up the number of status checks it was allowed. *)
Inductive outcome (A : Type) :=
  | Done (a : A)
  | Raised (e : exn)
  | OutOfFuel.
Arguments Done {A} a.
Arguments Raised {A} e.
Arguments OutOfFuel {A}.

Definition outcome_of {A} (r : result A) : outcome A :=
  match r with
  | Ok a => Done a
  | Raise e => Raised e
  end.

(** The mutable state: the outside world and the Python lists the caller
    shares with the module. *)
Record world (St : Type) := World {
  driver_state : St;
  heap : gmap loc (list string);
}.
Arguments World {St} driver_state heap.
Arguments driver_state {St} w.
Arguments heap {St} w.

Section Executor.
Context {St status : Type} `{!Driver St status}.

Definition M (A : Type) : Type :=
  world St → outcome A * world St * list (event status).

Definition ret {A} (a : A) : M A := λ w, (Done a, w, []).

Definition bind {A B} (m : M A) (k : A → M B) : M B := λ w,
  match m w with
  | (Done a, w1, evs1) => let '(o, w2, evs2) := k a w1 in (o, w2, evs1 ++ evs2)
  | (Raised e, w1, evs1) => (Raised e, w1, evs1)
  | (OutOfFuel, w1, evs1) => (OutOfFuel, w1, evs1)
  end.

Definition lift {A} (r : result A) : M A := λ w, (outcome_of r, w, []).

(** A call on the driver. *)
Definition call {A} (f : St → result A * St) (ev : result A → event status)
  : M A := λ w,
  let '(r, s) := f (driver_state w) in
  (outcome_of r, World s (heap w), [ev r]).

(** The exit of a [with] block: runs when the body returns or raises. *)
Definition finally {A} (body : M A) (close : St → St) (ev : event status)
  : M A := λ w,
  match body w with
  | (OutOfFuel, w1, evs1) => (OutOfFuel, w1, evs1)
  | (o, w1, evs1) => (o, World (close (driver_state w1)) (heap w1), evs1 ++ [ev])
  end.

(** [queries.insert(0, x)] and [queries.append(x)] on the list object at
    [l]; reading the list. *)
Definition list_insert0 (l : loc) (x : string) : M unit := λ w,
  (Done tt, World (driver_state w) (alter (λ xs, x :: xs) l (heap w)), []).

Definition list_append (l : loc) (x : string) : M unit := λ w,
  (Done tt, World (driver_state w) (alter (λ xs, xs ++ [x]) l (heap w)), []).

Definition list_read (l : loc) : M (list string) := λ w,
  (Done (default [] (heap w !! l)), w, []).

End Executor.

Notation "'let!' x ':=' m 'in' k" := (bind m (λ x, k))
  (at level 10, x name, m at level 100, k at level 200).

(** ** The methods and tasks of the module *)

Section Database.
Context {St status : Type} `{!Driver St status}.

Abbreviation M := (@M St status).

(** [SnowflakeConnector.get_connection] (lines 119-122). *)
Definition get_connection (self : SnowflakeConnector) (autocommit : bool)
  : M unit :=
  let! connect_params := lift (_get_connect_params self) in
  let connect_params := <["autocommit" := VBool autocommit]> connect_params in
  call (connect connect_params) (EvConnect connect_params).

(** [with self.get_connection() as connection: body]. *)
Definition with_connection {A} (self : SnowflakeConnector) (body : M A) : M A :=
  let! _ := get_connection self true in
  finally body connection_close EvConnectionClose.

(** [with connection.cursor(cursor_type) as cursor: body]. *)
Definition with_cursor {A} (cursor_type : cursor_class) (body : M A) : M A :=
  let! _ := call (cursor cursor_type) (EvCursor cursor_type) in
  finally body cursor_close EvCursorClose.

(** The loop
    [while connection.is_still_running(
            connection.get_query_status_throw_if_error(query_id)):
        await asyncio.sleep(interval_seconds)]
    (lines 142-145, 340-343, 419-422).  [fuel] bounds the number of status
    checks; Python has no such bound. *)
Fixpoint poll (fuel : nat) (interval_seconds : Z) (query_id : qid) : M unit :=
  match fuel with
  | O => λ w, (OutOfFuel, w, [])
  | S fuel =>
      let! st := call (get_query_status_throw_if_error query_id)
                      (EvStatus query_id) in
      if is_still_running st then
        let! _ := call (sleep interval_seconds) (EvSleep interval_seconds) in
        poll fuel interval_seconds query_id
      else ret tt
  end.

(** Submission, polling and loading of the results on the open cursor: the
    statements of lines 138-146, repeated at lines 338-344 and 417-423. *)
Definition submit_and_wait (fuel : nat) (operation : string)
  (parameters : qparams) (execute_kwargs : kwargs) (interval_seconds : Z)
  : M qid :=
  let! query_id := call (execute_async operation parameters execute_kwargs)
                        (EvExecuteAsync operation parameters execute_kwargs) in
  let! _ := poll fuel interval_seconds query_id in
  let! _ := call (get_results_from_sfqid query_id) (EvGetResults query_id) in
  ret query_id.

(** [_async_execute_operation] (lines 136-147), an asynchronous context
    manager: [body] is the block of the caller's [async with], which runs at
    the [yield], inside both [with] blocks. *)
Definition _async_execute_operation {A} (fuel : nat) (self : SnowflakeConnector)
  (operation : string) (parameters : qparams) (cursor_type : cursor_class)
  (interval_seconds : Z) (execute_kwargs : kwargs) (body : M A) : M A :=
  with_connection self
    (with_cursor cursor_type
      (let! _ := submit_and_wait fuel operation parameters execute_kwargs
                   interval_seconds in
       body)).

Definition fetch_one (fuel : nat) (self : SnowflakeConnector)
  (operation : string) (parameters : qparams) (cursor_type : cursor_class)
  (interval_seconds : Z) (execute_kwargs : kwargs) : M (option row) :=
  _async_execute_operation fuel self operation parameters cursor_type
    interval_seconds execute_kwargs (call fetchone EvFetchOne).

(** [limit] is [None] when the caller leaves the argument out; the default
    of the signature (line 190) is then used. *)
Definition fetch_many (fuel : nat) (self : SnowflakeConnector)
  (operation : string) (parameters : qparams) (limit : option (option Z))
  (cursor_type : cursor_class) (interval_seconds : Z)
  (execute_kwargs : kwargs) : M rows :=
  let limit := default (Some 5%Z) limit in
  _async_execute_operation fuel self operation parameters cursor_type
    interval_seconds execute_kwargs (call (fetchmany limit) (EvFetchMany limit)).

Definition fetch_all (fuel : nat) (self : SnowflakeConnector)
  (operation : string) (parameters : qparams) (cursor_type : cursor_class)
  (interval_seconds : Z) (execute_kwargs : kwargs) : M rows :=
  _async_execute_operation fuel self operation parameters cursor_type
    interval_seconds execute_kwargs (call fetchall EvFetchAll).

(** [SnowflakeConnector.execute] (lines 277-279). *)
Definition connector_execute (self : SnowflakeConnector) (operation : string)
  (parameters : qparams) (cursor_type : cursor_class) (execute_kwargs : kwargs)
  : M unit :=
  with_connection self
    (with_cursor cursor_type
      (call (execute operation parameters execute_kwargs)
            (EvExecute operation parameters execute_kwargs))).

(** The task [snowflake_query] (lines 336-346). *)
Definition snowflake_query (fuel : nat) (query : string)
  (snowflake_connector : SnowflakeConnector) (params : qparams)
  (cursor_type : cursor_class) (poll_frequency_seconds : Z) : M rows :=
  with_connection snowflake_connector
    (with_cursor cursor_type
      (let! _ := submit_and_wait fuel query params ∅ poll_frequency_seconds in
       call fetchall EvFetchAll)).

(** The body of the [for] loop of lines 416-425; [results] is the list
    built so far. *)
Fixpoint run_queries (fuel : nat) (queries : list string) (params : qparams)
  (poll_frequency_seconds : Z) (results : list rows) : M (list rows) :=
  match queries with
  | [] => ret results
  | query :: queries =>
      let! _ := submit_and_wait fuel query params ∅ poll_frequency_seconds in
      let! result := call fetchall EvFetchAll in
      run_queries fuel queries params poll_frequency_seconds (results ++ [result])
  end.

(** [results[1:-1]]. *)
Definition slice_1_m1 {A} (results : list A) : list A :=
  drop 1 (take (length results - 1) results).

(** The function of the task [snowflake_multiquery] (lines 409-431): what
    [snowflake_multiquery.fn] runs.  [queries] is the list object the
    function receives. *)
Definition snowflake_multiquery (fuel : nat) (queries : loc)
  (snowflake_connector : SnowflakeConnector) (params : qparams)
  (cursor_type : cursor_class) (as_transaction : bool)
  (return_transaction_control_results : bool) (poll_frequency_seconds : Z)
  : M (list rows) :=
  let! results :=
    with_connection snowflake_connector
      (let! _ := if as_transaction then
                   let! _ := list_insert0 queries BEGIN_TRANSACTION_STATEMENT in
                   list_append queries END_TRANSACTION_STATEMENT
                 else ret tt in
       with_cursor cursor_type
         (let! qs := list_read queries in
          run_queries fuel qs params poll_frequency_seconds [])) in
  if as_transaction && negb return_transaction_control_results
  then ret (slice_1_m1 results)
  else ret results.

(** The task [snowflake_query_sync] (lines 484-488). *)
Definition snowflake_query_sync (query : string)
  (snowflake_connector : SnowflakeConnector) (params : qparams)
  (cursor_type : cursor_class) : M rows :=
  with_connection snowflake_connector
    (with_cursor cursor_type
      (let! _ := call (execute query params ∅) (EvExecute query params ∅) in
       call fetchall EvFetchAll)).

End Database.

(** ** The task call

    [snowflake_multiquery] is decorated with Prefect's [@task] (line 349), so
    the name is bound to a task and the function above is its [fn].  A call
    of the task in a flow, as in the docstring (lines 383-404), does not hand
    the caller's objects to the function: Prefect resolves the parameters of
    the call first, and that rebuilds a list argument, so the function
    receives a new list with the same elements.  Prefect is not part of this
    module; of the call only this passing of the list is modelled. *)

Section TaskCall.
Context {St status : Type} `{!Driver St status}.



End TaskCall.

(** ** A scripted driver

    A test double in the manner of the test suite: the status checks are
    answered from a script, a cancellation can be scheduled for one of the
    sleeps, and the rows of a query name the query. *)

Module Mock.

Inductive mstatus := RUNNING | SUCCESS.

Record mstate := MState {
  (** answers of the coming status checks; [SUCCESS] once exhausted *)
  script : list (result mstatus);
  (** number of sleeps that complete before the task is cancelled *)
  cancel_after : option nat;
  (** the query whose results the cursor holds *)
  loaded : option qid;
}.

Definition table (id : qid) : rows :=
  (λ i : Z, [VStr id; VInt i]) <$> [1; 2; 3; 4; 5; 6; 7; 8]%Z.

Definition current (s : mstate) : rows :=
  match loaded s with
  | Some id => table id
  | None => []
  end.

Definition m_status (s : mstate) : result mstatus * mstate :=
  match script s with
  | [] => (Ok SUCCESS, s)
  | r :: rest => (r, MState rest (cancel_after s) (loaded s))
  end.

Definition m_sleep (s : mstate) : result unit * mstate :=
  match cancel_after s with
  | Some O => (Raise CancelledError, s)
  | Some (S n) => (Ok tt, MState (script s) (Some n) (loaded s))
  | None => (Ok tt, s)
  end.

Definition m_fetchmany (size : option Z) (s : mstate) : result rows * mstate :=
  (Ok (take (Z.to_nat (default 1%Z size)) (current s)), s).

#[global] Instance driver : Driver mstate mstatus := {|
  connect _ s := (Ok tt, s);
  cursor _ s := (Ok tt, s);
  execute_async q _ _ s := (Ok q, s);
  get_query_status_throw_if_error _ s := m_status s;
  is_still_running st := match st with RUNNING => true | SUCCESS => false end;
  sleep _ s := m_sleep s;
  get_results_from_sfqid id s :=
    (Ok tt, MState (script s) (cancel_after s) (Some id));
  fetchone s := (Ok (head (current s)), s);
  fetchmany := m_fetchmany;
  fetchall s := (Ok (current s), s);
  execute q _ _ s := (Ok tt, MState (script s) (cancel_after s) (Some q));
  cursor_close s := s;
  connection_close s := s;
|}.

Definition creds : SnowflakeCredentials := {|
  dict := <["account" := VStr "account"]>
          (<["user" := VStr "user"]>
          (<["password" := VSecretStr "hunter2"]>
          (<["private_key" := VNone]>
          (<["token" := VNone]>
          (<["authenticator" := VStr "snowflake"]>
          (<["okta_endpoint" := VNone]>
          (<["role" := VNone]> ∅)))))));
  resolve_private_key := None;
|}.

(** Key-pair credentials: the password is the passphrase of the key. *)
Definition creds_key : SnowflakeCredentials := {|
  dict := <["account" := VStr "account"]>
          (<["user" := VStr "user"]>
          (<["password" := VSecretStr "passphrase"]>
          (<["private_key" := VSecretBytes "PEM"]>
          (<["token" := VNone]>
          (<["authenticator" := VStr "snowflake"]>
          (<["okta_endpoint" := VNone]>
          (<["role" := VStr "analyst"]> ∅)))))));
  resolve_private_key := Some "DER";
|}.

(** Single sign-on through an Okta endpoint. *)
Definition creds_okta : SnowflakeCredentials := {|
  dict := <["account" := VStr "account"]>
          (<["user" := VStr "user"]>
          (<["password" := VSecretStr "hunter2"]>
          (<["private_key" := VNone]>
          (<["token" := VNone]>
          (<["authenticator" := VStr "okta_endpoint"]>
          (<["okta_endpoint" := VStr "https://acme.okta.com"]>
          (<["role" := VNone]> ∅)))))));
  resolve_private_key := None;
|}.

Definition connector_with (c : SnowflakeCredentials) : SnowflakeConnector := {|
  database := "database";
  warehouse := "warehouse";
  schema_ := "schema";
  credentials := c;
|}.

Definition connector : SnowflakeConnector := connector_with creds.

(** The states in which the scripted driver cooperates, and the bound on the
    status checks that can still report a running query. *)
Definition good (s : mstate) : Prop :=
  cancel_after s = None ∧ Forall (λ r, ∃ st, r = Ok st) (script s).

Definition budget (s : mstate) : nat := length (script s).

Definition start (sc : list (result mstatus)) (c : option nat)
  (queries : list string) : world mstate :=
  World (MState sc c None) {[ 0 := queries ]}.

End Mock.

(** ** Observations on credentials *)

Definition secret_fields : list string := ["password"; "private_key"; "token"].

(** A field of the credentials is populated when it is present with a value
    other than [None]. *)
Definition populated (d : gmap string pyval) (k : string) : bool :=
  match d !! k with
  | Some VNone | None => false
  | Some _ => true
  end.

Definition is_secret (v : pyval) : bool :=
  match v with
  | VSecretStr _ | VSecretBytes _ => true
  | _ => false
  end.

(** The secret fields hold wrapped secrets (or nothing). *)
Definition secrets_typed (d : gmap string pyval) : bool :=
  forallb (λ k, match d !! k with
                | Some VNone | None => true
                | Some v => is_secret v
                end) secret_fields.

(** With the authenticator ["okta_endpoint"] comes an endpoint. *)
Definition endpoint_given (d : gmap string pyval) : bool :=
  if decide (d !! "authenticator" = Some (VStr "okta_endpoint"))
  then populated d "okta_endpoint" else true.

(** The credentials for which [_get_connect_params] returns. *)
Definition valid_credentials (c : SnowflakeCredentials) : bool :=
  secrets_typed (dict c) && endpoint_given (dict c).

(** A private key is only ever resolved from a populated [private_key]
    field. *)
Definition key_from_field (c : SnowflakeCredentials) : Prop :=
  resolve_private_key c ≠ None → populated (dict c) "private_key" = true.

(** ** Observations on traces *)

Section Traces.
Context {St status : Type} `{!Driver St status}.

(** The exception a call raised, if it did. *)
Definition ev_exn (ev : event status) : option exn :=
  match ev with
  | EvConnect _ (Raise e) | EvCursor _ (Raise e)
  | EvExecuteAsync _ _ _ (Raise e) | EvStatus _ (Raise e)
  | EvSleep _ (Raise e) | EvGetResults _ (Raise e)
  | EvFetchOne (Raise e) | EvFetchMany _ (Raise e) | EvFetchAll (Raise e)
  | EvExecute _ _ _ (Raise e) => Some e
  | _ => None
  end.

(** No call of the trace raised. *)
Definition clean (evs : list (event status)) : Prop :=
  Forall (λ ev, ev_exn ev = None) evs.

(** Suspensions: the calls of [asyncio.sleep]. *)
Definition is_sleep (ev : event status) : bool :=
  match ev with EvSleep _ _ => true | _ => false end.

(** Status checks that report a query that is still running. *)
Definition is_running_check (ev : event status) : bool :=
  match ev with
  | EvStatus _ (Ok st) => is_still_running st
  | _ => false
  end.

Definition is_fetch (ev : event status) : bool :=
  match ev with
  | EvFetchOne _ | EvFetchMany _ _ | EvFetchAll _ => true
  | _ => false
  end.

(** The events of the poll loop. *)
Definition is_poll (ev : event status) : bool :=
  match ev with EvStatus _ _ | EvSleep _ _ => true | _ => false end.

Definition suspensions (evs : list (event status)) : nat :=
  length (filter (λ ev, is_sleep ev = true) evs).

Definition running_checks (evs : list (event status)) : nat :=
  length (filter (λ ev, is_running_check ev = true) evs).

(** The answers of the status checks, in order. *)
Fixpoint status_checks (evs : list (event status)) : list (result status) :=
  match evs with
  | [] => []
  | EvStatus _ r :: evs => r :: status_checks evs
  | _ :: evs => status_checks evs
  end.

(** The operations handed to [execute_async], in order. *)
Fixpoint submitted (evs : list (event status)) : list string :=
  match evs with
  | [] => []
  | EvExecuteAsync q _ _ _ :: evs => q :: submitted evs
  | _ :: evs => submitted evs
  end.

(** Every result set that [fetchall] returned, with the operation that was
    submitted last before it ([cur], to begin with). *)
Fixpoint results_by_query (cur : option string) (evs : list (event status))
  : list (string * rows) :=
  match evs with
  | [] => []
  | EvExecuteAsync q _ _ _ :: evs => results_by_query (Some q) evs
  | EvFetchAll (Ok r) :: evs =>
      match cur with
      | Some q => (q, r) :: results_by_query cur evs
      | None => results_by_query cur evs
      end
  | _ :: evs => results_by_query cur evs
  end.

(** A driver that cooperates in the states [good]: no call raises there, the
    calls keep the state [good], and [budget] bounds the status checks that
    still report a running query (a check that does so lowers it, a sleep
    does not raise it). *)
Record cooperative (good : St → Prop) (budget : St → nat) : Prop := {
  coop_connect p s : good s → ∃ s', connect p s = (Ok tt, s') ∧ good s';
  coop_cursor c s : good s → ∃ s', cursor c s = (Ok tt, s') ∧ good s';
  coop_execute_async q p kw s :
    good s → ∃ id s', execute_async q p kw s = (Ok id, s') ∧ good s';
  coop_status id s :
    good s →
    ∃ st s', get_query_status_throw_if_error id s = (Ok st, s') ∧ good s' ∧
             (is_still_running st = true → (budget s' < budget s)%nat);
  coop_sleep secs s :
    good s → ∃ s', sleep secs s = (Ok tt, s') ∧ good s' ∧ (budget s' ≤ budget s)%nat;
  coop_get_results id s :
    good s → ∃ s', get_results_from_sfqid id s = (Ok tt, s') ∧ good s';
  coop_fetchall s : good s → ∃ r s', fetchall s = (Ok r, s') ∧ good s';
}.

(** The contract of [cursor.fetchmany(size=n)]: at most [n] rows. *)
Definition fetchmany_bounded : Prop :=
  ∀ (n : Z) s r s', fetchmany (Some n) s = (Ok r, s') → (length r ≤ Z.to_nat n)%nat.

(** The shape of a trace in which only the last call may have raised, and
    then the coroutine raised the same exception. *)
Definition raises_last {A} (o : outcome A) (evs : list (event status)) : Prop :=
  clean evs ∨
  ∃ pre ev e, evs = pre ++ [ev] ∧ clean pre ∧ ev_exn ev = Some e ∧ o = Raised e.

(** The event of the exit of a [with] block: none while the body is still
    running. *)
Definition closing {A} (o : outcome A) (ev : event status)
  : list (event status) :=
  match o with
  | OutOfFuel => []
  | _ => [ev]
  end.

(** The traces of the poll loop on the query [id]. *)
Inductive poll_trace (interval : Z) (id : qid)
  : outcome unit → list (event status) → Prop :=
  | poll_out_of_fuel : poll_trace interval id OutOfFuel []
  | poll_done st :
      is_still_running st = false →
      poll_trace interval id (Done tt) [EvStatus id (Ok st)]
  | poll_status_raised e :
      poll_trace interval id (Raised e) [EvStatus id (Raise e)]
  | poll_sleep_raised st e :
      is_still_running st = true →
      poll_trace interval id (Raised e)
        [EvStatus id (Ok st); EvSleep interval (Raise e)]
  | poll_again st o evs :
      is_still_running st = true →
      poll_trace interval id o evs →
      poll_trace interval id o
        (EvStatus id (Ok st) :: EvSleep interval (Ok tt) :: evs).

(** The traces of submission, polling and loading of one operation. *)
Inductive submit_trace (q : string) (p : qparams) (kw : kwargs) (interval : Z)
  : outcome qid → list (event status) → Prop :=
  | submit_raised e :
      submit_trace q p kw interval (Raised e) [EvExecuteAsync q p kw (Raise e)]
  | submit_poll_raised id e pevs :
      poll_trace interval id (Raised e) pevs →
      submit_trace q p kw interval (Raised e)
        (EvExecuteAsync q p kw (Ok id) :: pevs)
  | submit_poll_out_of_fuel id pevs :
      poll_trace interval id OutOfFuel pevs →
      submit_trace q p kw interval OutOfFuel
        (EvExecuteAsync q p kw (Ok id) :: pevs)
  | submit_load_raised id e pevs :
      poll_trace interval id (Done tt) pevs →
      submit_trace q p kw interval (Raised e)
        (EvExecuteAsync q p kw (Ok id) :: pevs ++ [EvGetResults id (Raise e)])
  | submit_loaded id pevs :
      poll_trace interval id (Done tt) pevs →
      submit_trace q p kw interval (Done id)
        (EvExecuteAsync q p kw (Ok id) :: pevs ++ [EvGetResults id (Ok tt)]).

(** The list that [snowflake_multiquery] runs for the caller's [ops]. *)
Definition bracketed (as_transaction : bool) (ops : list string) : list string :=
  if as_transaction
  then BEGIN_TRANSACTION_STATEMENT :: ops ++ [END_TRANSACTION_STATEMENT]
  else ops.

(** Two coroutines stopped the same way: same exception, or both still
    polling. *)
Definition stopped {A B} (o : outcome A) (o' : outcome B) : Prop :=
  match o, o' with
  | Raised e, Raised e' => e = e'
  | OutOfFuel, OutOfFuel => True
  | _, _ => False
  end.

End Traces.

(** ** Observations on sessions *)

Section Sessions.
Context {status : Type}.

(** The number of events of a kind. *)
Definition count_events (f : event status → bool) (evs : list (event status))
  : nat :=
  length (filter (λ ev, f ev = true) evs).

Definition is_connect (ev : event status) : bool :=
  match ev with EvConnect _ _ => true | _ => false end.

Definition is_cursor (ev : event status) : bool :=
  match ev with EvCursor _ _ => true | _ => false end.

(** Acquisitions that succeeded, and releases. *)
Definition is_opened_connection (ev : event status) : bool :=
  match ev with EvConnect _ (Ok _) => true | _ => false end.

Definition is_opened_cursor (ev : event status) : bool :=
  match ev with EvCursor _ (Ok _) => true | _ => false end.

Definition is_cursor_close (ev : event status) : bool :=
  match ev with EvCursorClose => true | _ => false end.

Definition is_connection_close (ev : event status) : bool :=
  match ev with EvConnectionClose => true | _ => false end.

(** The calls made on the open cursor and on the event loop. *)
Definition is_op (ev : event status) : bool :=
  match ev with
  | EvExecuteAsync _ _ _ _ | EvStatus _ _ | EvSleep _ _ | EvGetResults _ _
  | EvFetchOne _ | EvFetchMany _ _ | EvFetchAll _ | EvExecute _ _ _ _ => true
  | _ => false
  end.

(** What the [with] blocks release when the call [ev] raises: nothing is
    open when [connect] fails, the connection when [cursor] fails, the cursor
    and then the connection otherwise. *)
Definition cleanup_after (ev : event status) : list (event status) :=
  match ev with
  | EvConnect _ _ => []
  | EvCursor _ _ => [EvConnectionClose]
  | _ => [EvCursorClose; EvConnectionClose]
  end.

(** A submission made with the bindings [params] and no keyword argument. *)
Definition submits_with (params : qparams) (ev : event status) : Prop :=
  match ev with
  | EvExecuteAsync _ p kw _ => p = params ∧ kw = ∅
  | _ => True
  end.

(** An event of the poll loop on the query [id] with the given interval. *)
Definition polls (id : qid) (interval : Z) (ev : event status) : Prop :=
  match ev with
  | EvStatus id' _ => id' = id
  | EvSleep secs _ => secs = interval
  | _ => False
  end.

End Sessions.

(** ** More scenarios for the scripted driver *)

Module Scenarios.

(** The scripted driver behind a network that is down: [connect] raises. *)
Definition offline : Driver Mock.mstate Mock.mstatus := {|
  connect _ s := (Raise ConnectionError, s);
  cursor := @cursor _ _ Mock.driver;
  execute_async := @execute_async _ _ Mock.driver;
  get_query_status_throw_if_error :=
    @get_query_status_throw_if_error _ _ Mock.driver;
  is_still_running := @is_still_running _ _ Mock.driver;
  sleep := @sleep _ _ Mock.driver;
  get_results_from_sfqid := @get_results_from_sfqid _ _ Mock.driver;
  fetchone := @fetchone _ _ Mock.driver;
  fetchmany := @fetchmany _ _ Mock.driver;
  fetchall := @fetchall _ _ Mock.driver;
  execute := @execute _ _ Mock.driver;
  cursor_close := @cursor_close _ _ Mock.driver;
  connection_close := @connection_close _ _ Mock.driver;
|}.

(** The Okta authenticator without an endpoint. *)
Definition creds_no_endpoint : SnowflakeCredentials := {|
  dict := <["okta_endpoint" := VNone]> (dict Mock.creds_okta);
  resolve_private_key := None;
|}.

(** Credentials that name a database of their own and turn autocommit off. *)
Definition creds_override : SnowflakeCredentials := {|
  dict := <["database" := VStr "sandbox"]>
          (<["autocommit" := VBool false]> (dict Mock.creds));
  resolve_private_key := None;
|}.

End Scenarios.

(** Closes the side conditions on traces: which calls raised. *)
Ltac solve_raises :=
  repeat split; try done; unfold clean in *;
  repeat (constructor; try done).

(** ** Properties of the connection configurator *)

Section ConfigFacts.
Implicit Types (m : gmap string pyval) (k j : string) (v : pyval).

Lemma base_params_None self k :
  k ∉ ["database"; "warehouse"; "schema"; "application"] →
  base_params self !! k = None.
Proof.
  intros Hk. unfold base_params.
  rewrite !lookup_insert_ne, lookup_empty; [done | ..];
    intros ?; subst k; apply Hk; set_solver.
Qed.

Lemma merged_lookup self k :
  k ∉ ["database"; "warehouse"; "schema"; "application"] →
  merged_params self !! k = dict (credentials self) !! k.
Proof.
  intros Hk. unfold merged_params.
  rewrite lookup_union, base_params_None by done.
  by destruct (dict (credentials self) !! k).
Qed.

Lemma filter_unset_lookup m k :
  filter_unset m !! k =
  match m !! k with Some VNone => None | o => o end.
Proof.
  unfold filter_unset. destruct (m !! k) as [v|] eqn:Hm.
  - destruct (decide (v = VNone)) as [->|Hv].
    + apply map_lookup_filter_None. right. intros v' Hv'. simpl.
      rewrite Hm in Hv'. by injection Hv' as <-; intros ?.
    + transitivity (Some v); [|by destruct v].
      by apply map_lookup_filter_Some.
  - apply map_lookup_filter_None. by left.
Qed.

Lemma filter_unset_not_None m k : filter_unset m !! k ≠ Some VNone.
Proof. rewrite filter_unset_lookup. by destruct (m !! k) as [[]|]. Qed.

Lemma get_secret_value_not_None v v' :
  get_secret_value v = Ok v' → v' ≠ VNone.
Proof. destruct v; simpl; intros [=]; by subst. Qed.

Lemma reveal_lookup_ne k j m m' :
  reveal k m = Ok m' → j ≠ k → m' !! j = m !! j.
Proof.
  unfold reveal. destruct (m !! k) as [v|]; [|by intros [= ->]].
  destruct (get_secret_value v); simpl; intros [=] ?; subst.
  by rewrite lookup_insert_ne.
Qed.

Lemma reveal_lookup_eq k m m' :
  reveal k m = Ok m' →
  match m !! k with
  | Some v => ∃ v', get_secret_value v = Ok v' ∧ m' !! k = Some v'
  | None => m' !! k = None
  end.
Proof.
  unfold reveal. destruct (m !! k) as [v|] eqn:Hk; [|by intros [= <-]].
  destruct (get_secret_value v) as [v'|]; simpl; intros [=]; subst.
  exists v'. by rewrite lookup_insert_eq.
Qed.

Lemma reveal_is_Some k j m m' :
  reveal k m = Ok m' → is_Some (m' !! j) ↔ is_Some (m !! j).
Proof.
  intros H. destruct (decide (j = k)) as [->|Hne].
  - apply reveal_lookup_eq in H. destruct (m !! k).
    + destruct H as (v' & _ & ->). split; eauto.
    + by rewrite H.
  - by rewrite (reveal_lookup_ne _ _ _ _ H Hne).
Qed.

Lemma reveal_not_None k j m m' :
  reveal k m = Ok m' → m !! j ≠ Some VNone → m' !! j ≠ Some VNone.
Proof.
  intros H Hm. destruct (decide (j = k)) as [->|Hne].
  - apply reveal_lookup_eq in H. destruct (m !! k).
    + destruct H as (v' & Hv & ->). intros [= ->].
      by eapply get_secret_value_not_None.
    + by rewrite H.
  - by rewrite (reveal_lookup_ne _ _ _ _ H Hne).
Qed.

Lemma set_authenticator_lookup_ne m m' j :
  set_authenticator m = Ok m' →
  j ≠ "authenticator" → j ≠ "okta_endpoint" → m' !! j = m !! j.
Proof.
  unfold set_authenticator. case_decide; [|by intros [= ->]].
  destruct (m !! "okta_endpoint"); intros [=] ??; subst.
  by rewrite lookup_insert_ne, lookup_delete_ne.
Qed.

Lemma set_authenticator_not_None m m' j :
  set_authenticator m = Ok m' →
  (∀ i, m !! i ≠ Some VNone) → m' !! j ≠ Some VNone.
Proof.
  unfold set_authenticator. case_decide; [|by intros [= ->]].
  destruct (m !! "okta_endpoint") as [ep|] eqn:Hep; intros [=] Hm; subst.
  destruct (decide (j = "authenticator")) as [->|].
  - rewrite lookup_insert_eq. intros [= ->]. by apply (Hm "okta_endpoint").
  - rewrite lookup_insert_ne by done.
    destruct (decide (j = "okta_endpoint")) as [->|].
    + by rewrite lookup_delete_eq.
    + by rewrite lookup_delete_ne.
Qed.

Lemma set_private_key_lookup_ne key m j :
  j ≠ "private_key" → j ≠ "password" →
  set_private_key key m !! j = m !! j.
Proof.
  intros ??. destruct key; simpl; [|done].
  by rewrite lookup_delete_ne, lookup_insert_ne.
Qed.

(** The stages of [_get_connect_params], when it returns. *)
Lemma get_connect_params_inv self m :
  _get_connect_params self = Ok m →
  ∃ m1 m2 m3 m4,
    reveal "password" (filter_unset (merged_params self)) = Ok m1 ∧
    reveal "private_key" m1 = Ok m2 ∧
    reveal "token" m2 = Ok m3 ∧
    set_authenticator m3 = Ok m4 ∧
    m = set_private_key (resolve_private_key (credentials self)) m4.
Proof.
  unfold _get_connect_params. intros H.
  destruct (reveal "password" _) as [m1|] eqn:H1; simpl in H; [|done].
  destruct (reveal "private_key" m1) as [m2|] eqn:H2; simpl in H; [|done].
  destruct (reveal "token" m2) as [m3|] eqn:H3; simpl in H; [|done].
  destruct (set_authenticator m3) as [m4|] eqn:H4; simpl in H; [|done].
  injection H as <-. by exists m1, m2, m3, m4.
Qed.

Lemma filter_merged_lookup self k :
  k ∉ ["database"; "warehouse"; "schema"; "application"] →
  filter_unset (merged_params self) !! k =
  match dict (credentials self) !! k with Some VNone => None | o => o end.
Proof. intros Hk. by rewrite filter_unset_lookup, merged_lookup. Qed.

Lemma filter_merged_is_Some self k :
  k ∉ ["database"; "warehouse"; "schema"; "application"] →
  is_Some (filter_unset (merged_params self) !! k) ↔
  populated (dict (credentials self)) k = true.
Proof.
  intros Hk. rewrite filter_merged_lookup by done. unfold populated.
  destruct (dict (credentials self) !! k) as [[]|]; split;
    (done || by inversion 1 || eauto).
Qed.

Lemma secret_not_base k :
  k ∈ secret_fields → k ∉ ["database"; "warehouse"; "schema"; "application"].
Proof. unfold secret_fields. rewrite !elem_of_cons, !elem_of_nil. naive_solver. Qed.

Lemma secret_not_authenticator k :
  k ∈ secret_fields → k ≠ "authenticator" ∧ k ≠ "okta_endpoint".
Proof. unfold secret_fields. rewrite !elem_of_cons, !elem_of_nil. naive_solver. Qed.

Lemma reveal_ok k m :
  match m !! k with Some v => is_secret v = true | None => True end →
  ∃ m', reveal k m = Ok m'.
Proof.
  unfold reveal. destruct (m !! k) as [v|]; [|eauto].
  destruct v; simpl; intros [=]; eauto.
Qed.

Lemma secrets_typed_lookup d k :
  secrets_typed d = true → k ∈ secret_fields →
  match d !! k with
  | Some VNone | None => True
  | Some v => is_secret v = true
  end.
Proof.
  unfold secrets_typed. rewrite forallb_forall. intros H Hk.
  specialize (H k). rewrite <- list_elem_of_In in H. specialize (H Hk).
  by destruct (d !! k) as [[]|].
Qed.

(** [_get_connect_params] returns for valid credentials. *)
Lemma get_connect_params_returns self :
  valid_credentials (credentials self) = true →
  ∃ m, _get_connect_params self = Ok m.
Proof.
  unfold valid_credentials. rewrite andb_true_iff. intros [Hty Hep].
  set (d := dict (credentials self)) in *.
  assert (Hsec : ∀ k, k ∈ secret_fields →
    match filter_unset (merged_params self) !! k with
    | Some v => is_secret v = true | None => True end).
  { intros k Hk. rewrite filter_merged_lookup by (by apply secret_not_base).
    pose proof (secrets_typed_lookup d k Hty Hk) as H. fold d.
    by destruct (d !! k) as [[]|]. }
  unfold _get_connect_params.
  destruct (reveal_ok "password" (filter_unset (merged_params self)))
    as [m1 H1]; [apply Hsec; set_solver|].
  destruct (reveal_ok "private_key" m1) as [m2 H2].
  { rewrite (reveal_lookup_ne _ _ _ _ H1) by done. apply Hsec; set_solver. }
  destruct (reveal_ok "token" m2) as [m3 H3].
  { rewrite (reveal_lookup_ne _ _ _ _ H2), (reveal_lookup_ne _ _ _ _ H1) by done.
    apply Hsec; set_solver. }
  rewrite H1; simpl. rewrite H2; simpl. rewrite H3; simpl.
  assert (Hm3 : ∀ j, j ∉ secret_fields →
    m3 !! j = filter_unset (merged_params self) !! j).
  { intros j Hj.
    rewrite (reveal_lookup_ne _ _ _ _ H3), (reveal_lookup_ne _ _ _ _ H2),
      (reveal_lookup_ne _ _ _ _ H1); [done|..];
      intros ->; apply Hj; set_solver. }
  unfold set_authenticator. case_decide as Hauth; simpl; [|eauto].
  rewrite Hm3, filter_merged_lookup in Hauth by set_solver.
  rewrite Hm3, filter_merged_lookup by set_solver. fold d in Hauth |- *.
  unfold endpoint_given in Hep. rewrite decide_True in Hep.
  - unfold populated in Hep.
    destruct (d !! "okta_endpoint") as [[]|]; simpl; eauto; done.
  - by destruct (d !! "authenticator") as [[]|].
Qed.

(** What [_get_connect_params] returns under the secret keys. *)
Lemma secret_lookup self m k :
  _get_connect_params self = Ok m → k ∈ secret_fields →
  match resolve_private_key (credentials self) with
  | Some der =>
      if decide (k = "private_key") then m !! k = Some (VBytes der)
      else if decide (k = "password") then m !! k = None
      else is_Some (m !! k) ↔ populated (dict (credentials self)) k = true
  | None => is_Some (m !! k) ↔ populated (dict (credentials self)) k = true
  end.
Proof.
  intros Hm Hk.
  destruct (get_connect_params_inv _ _ Hm) as (m1 & m2 & m3 & m4 & H1 & H2 & H3 & H4 & ->).
  destruct (secret_not_authenticator k Hk) as [Ha Ho].
  assert (H : is_Some (m4 !! k) ↔ populated (dict (credentials self)) k = true).
  { rewrite (set_authenticator_lookup_ne _ _ _ H4 Ha Ho).
    rewrite (reveal_is_Some _ _ _ _ H3), (reveal_is_Some _ _ _ _ H2),
      (reveal_is_Some _ _ _ _ H1).
    apply filter_merged_is_Some. by apply secret_not_base. }
  destruct (resolve_private_key (credentials self)) as [der|]; simpl; [|done].
  repeat case_decide; subst.
  - by rewrite lookup_delete_ne, lookup_insert_eq.
  - by rewrite lookup_delete_eq.
  - by rewrite lookup_delete_ne, lookup_insert_ne.
Qed.

(** No value of the returned mapping is [None]. *)
Lemma get_connect_params_not_None self m j :
  _get_connect_params self = Ok m → m !! j ≠ Some VNone.
Proof.
  intros Hm.
  destruct (get_connect_params_inv _ _ Hm) as (m1 & m2 & m3 & m4 & H1 & H2 & H3 & H4 & ->).
  assert (H : ∀ i, m4 !! i ≠ Some VNone).
  { intros i. eapply set_authenticator_not_None; [done|]. intros i'.
    eapply reveal_not_None; [done|]. eapply reveal_not_None; [done|].
    eapply reveal_not_None; [done|]. apply filter_unset_not_None. }
  destruct (resolve_private_key (credentials self)) as [der|]; simpl; [|done].
  destruct (decide (j = "password")) as [->|]; [by rewrite lookup_delete_eq|].
  rewrite lookup_delete_ne by done.
  destruct (decide (j = "private_key")) as [->|]; [by rewrite lookup_insert_eq|].
  by rewrite lookup_insert_ne.
Qed.

(** Claim C4.  When exactly one of the fields [password], [private_key] and
    [token] of the credentials is populated (and a private key is resolved
    only from a populated [private_key] field), the mapping that
    [_get_connect_params] returns contains that secret field and neither of
    the other two; and the method does return for valid credentials. *)
Theorem auth_mode_exclusive self k :
  k ∈ secret_fields →
  populated (dict (credentials self)) k = true →
  (∀ k', k' ∈ secret_fields → k' ≠ k →
         populated (dict (credentials self)) k' = false) →
  key_from_field (credentials self) →
  (valid_credentials (credentials self) = true →
   ∃ m, _get_connect_params self = Ok m) ∧
  ∀ m, _get_connect_params self = Ok m →
    is_Some (m !! k) ∧
    ∀ k', k' ∈ secret_fields → k' ≠ k → m !! k' = None.
Proof.
  intros Hk Hpop Hothers Hkey. split; [apply get_connect_params_returns|].
  intros m Hm.
  assert (Hres : ∀ j, j ∈ secret_fields →
    is_Some (m !! j) ↔ populated (dict (credentials self)) j = true).
  { intros j Hj. pose proof (secret_lookup self m j Hm Hj) as H.
    destruct (resolve_private_key (credentials self)) as [der|] eqn:Hder;
      [|done].
    assert (populated (dict (credentials self)) "private_key" = true) as Hpk
      by (apply Hkey; by rewrite Hder).
    assert (k = "private_key") as ->.
    { destruct (decide (k = "private_key")) as [|Hne]; [done|].
      rewrite Hothers in Hpk; [done| |done].
      unfold secret_fields. rewrite !elem_of_cons. auto. }
    repeat case_decide; subst; [by rewrite H, Hpk| |done].
    rewrite H, Hothers; [|done|done]. split; [by intros []|done]. }
  split; [by apply Hres|].
  intros k' Hk' Hne. apply eq_None_not_Some. rewrite Hres by done.
  by rewrite Hothers.
Qed.

Lemma auth_mode_exclusive_witness :
  ∃ m, _get_connect_params Mock.connector = Ok m ∧
       is_Some (m !! "password") ∧
       m !! "private_key" = None ∧ m !! "token" = None.
Proof.
  destruct (auth_mode_exclusive Mock.connector "password") as [Hret Hpost].
  - unfold secret_fields. rewrite !elem_of_cons. auto.
  - vm_compute. reflexivity.
  - unfold secret_fields. intros k'. rewrite !elem_of_cons, elem_of_nil.
    intros [->|[->|[->|[]]]] Hne; [by destruct Hne|..]; vm_compute; reflexivity.
  - intros H. by destruct H.
  - assert (Hv : valid_credentials (credentials Mock.connector) = true)
      by (vm_compute; reflexivity).
    destruct (Hret Hv) as [m Hm]. exists m.
    destruct (Hpost m Hm) as [Hp Ho].
    split; [exact Hm|]. split; [exact Hp|].
    split; (apply Ho; [unfold secret_fields; rewrite !elem_of_cons; auto
                      | discriminate]).
Defined.

(** Claim C5.  When a private key is resolvable from the credentials, the
    mapping that [_get_connect_params] returns has no [password] entry (and
    carries the resolved key); the method does return for valid
    credentials. *)
Theorem key_supersedes_password self der :
  resolve_private_key (credentials self) = Some der →
  (valid_credentials (credentials self) = true →
   ∃ m, _get_connect_params self = Ok m) ∧
  ∀ m, _get_connect_params self = Ok m →
    m !! "password" = None ∧ m !! "private_key" = Some (VBytes der).
Proof.
  intros Hder. split; [apply get_connect_params_returns|]. intros m Hm.
  pose proof (secret_lookup self m "password" Hm) as Hpw.
  pose proof (secret_lookup self m "private_key" Hm) as Hpk.
  rewrite Hder in Hpw, Hpk. split.
  - apply Hpw. unfold secret_fields. rewrite !elem_of_cons. auto.
  - apply Hpk. unfold secret_fields. rewrite !elem_of_cons. auto.
Qed.

Lemma key_supersedes_password_witness :
  populated (dict Mock.creds_key) "password" = true ∧
  ∃ m, _get_connect_params (Mock.connector_with Mock.creds_key) = Ok m ∧
       m !! "password" = None ∧ m !! "private_key" = Some (VBytes "DER").
Proof.
  split; [vm_compute; reflexivity|].
  destruct (key_supersedes_password (Mock.connector_with Mock.creds_key) "DER")
    as [Hret Hpost]; [reflexivity|].
  assert (Hv : valid_credentials Mock.creds_key = true)
    by (vm_compute; reflexivity).
  destruct (Hret Hv) as [m Hm]. exists m. split; [exact Hm|].
  exact (Hpost m Hm).
Defined.

(** Claim C6.  A field of the credentials whose value is [None] is not a key
    of the mapping that [_get_connect_params] returns (a private key being
    resolved only from a populated [private_key] field), and no value of
    that mapping is [None]; the method does return for valid credentials. *)
Theorem no_null_leakage self k :
  dict (credentials self) !! k = Some VNone →
  key_from_field (credentials self) →
  (valid_credentials (credentials self) = true →
   ∃ m, _get_connect_params self = Ok m) ∧
  ∀ m, _get_connect_params self = Ok m →
    m !! k = None ∧ ∀ j, m !! j ≠ Some VNone.
Proof.
  intros Hk Hkey. split; [apply get_connect_params_returns|]. intros m Hm.
  split; [|intros j; by eapply get_connect_params_not_None].
  destruct (get_connect_params_inv _ _ Hm)
    as (m1 & m2 & m3 & m4 & H1 & H2 & H3 & H4 & ->).
  assert (HF : filter_unset (merged_params self) !! k = None).
  { rewrite filter_unset_lookup. unfold merged_params.
    by rewrite (lookup_union_Some_l _ _ _ _ Hk). }
  assert (H3k : m3 !! k = None).
  { apply eq_None_not_Some.
    rewrite (reveal_is_Some _ _ _ _ H3), (reveal_is_Some _ _ _ _ H2),
      (reveal_is_Some _ _ _ _ H1), HF. by intros []. }
  assert (H4k : m4 !! k = None).
  { revert H4. unfold set_authenticator. case_decide as Hauth;
      [|by intros [= <-]].
    destruct (m3 !! "okta_endpoint") as [ep|]; intros [= <-].
    destruct (decide (k = "authenticator")) as [->|]; [congruence|].
    rewrite lookup_insert_ne by done.
    destruct (decide (k = "okta_endpoint")) as [->|].
    - by rewrite lookup_delete_eq.
    - by rewrite lookup_delete_ne. }
  destruct (resolve_private_key (credentials self)) as [der|] eqn:Hder;
    simpl; [|done].
  destruct (decide (k = "password")) as [->|]; [by rewrite lookup_delete_eq|].
  rewrite lookup_delete_ne by done.
  destruct (decide (k = "private_key")) as [->|].
  - unfold key_from_field, populated in Hkey. rewrite Hder, Hk in Hkey.
    by specialize (Hkey ltac:(done)).
  - by rewrite lookup_insert_ne.
Qed.

Lemma no_null_leakage_witness :
  ∃ m, _get_connect_params Mock.connector = Ok m ∧
       m !! "token" = None ∧ ∀ j, m !! j ≠ Some VNone.
Proof.
  destruct (no_null_leakage Mock.connector "token") as [Hret Hpost].
  - vm_compute. reflexivity.
  - intros H. by destruct H.
  - assert (Hv : valid_credentials Mock.creds = true)
      by (vm_compute; reflexivity).
    destruct (Hret Hv) as [m Hm]. exists m. split; [exact Hm|].
    exact (Hpost m Hm).
Defined.

(** Claim C7.  When the [authenticator] field of the credentials is
    ["okta_endpoint"], the mapping that [_get_connect_params] returns has
    the value of the [okta_endpoint] field (the endpoint URL) under
    [authenticator] and has no [okta_endpoint] entry; the method does return
    for valid credentials, which carry an endpoint. *)
Theorem okta_endpoint_substituted self :
  dict (credentials self) !! "authenticator" = Some (VStr "okta_endpoint") →
  (valid_credentials (credentials self) = true →
   ∃ m, _get_connect_params self = Ok m) ∧
  ∀ m, _get_connect_params self = Ok m →
    ∃ url, dict (credentials self) !! "okta_endpoint" = Some url ∧
           url ≠ VNone ∧
           m !! "authenticator" = Some url ∧
           m !! "okta_endpoint" = None.
Proof.
  intros Hauth. split; [apply get_connect_params_returns|]. intros m Hm.
  destruct (get_connect_params_inv _ _ Hm)
    as (m1 & m2 & m3 & m4 & H1 & H2 & H3 & H4 & ->).
  assert (Hm3 : ∀ j, j ∉ secret_fields →
    j ∉ ["database"; "warehouse"; "schema"; "application"] →
    m3 !! j = match dict (credentials self) !! j with
              | Some VNone => None | o => o end).
  { intros j Hj Hb.
    rewrite (reveal_lookup_ne _ _ _ _ H3), (reveal_lookup_ne _ _ _ _ H2),
      (reveal_lookup_ne _ _ _ _ H1); [by apply filter_merged_lookup|..];
      intros ->; apply Hj; unfold secret_fields; rewrite !elem_of_cons; auto. }
  assert (Hns : ∀ j, j = "authenticator" ∨ j = "okta_endpoint" →
    (j ∉ secret_fields) ∧
    (j ∉ ["database"; "warehouse"; "schema"; "application"])).
  { unfold secret_fields. intros j. rewrite !elem_of_cons, !elem_of_nil.
    naive_solver. }
  revert H4. unfold set_authenticator.
  rewrite !Hm3 by (apply Hns; auto). rewrite Hauth.
  rewrite decide_True by done.
  destruct (dict (credentials self) !! "okta_endpoint") as [url|] eqn:Hurl;
    [|done].
  destruct url; [done|..]; intros [= ?]; subst m4;
    (eexists; split; [done|]; split; [done|];
     rewrite !set_private_key_lookup_ne by done;
     by rewrite lookup_insert_eq, lookup_insert_ne, lookup_delete_eq).
Qed.

Lemma okta_endpoint_substituted_witness :
  ∃ m, _get_connect_params (Mock.connector_with Mock.creds_okta) = Ok m ∧
       m !! "authenticator" = Some (VStr "https://acme.okta.com") ∧
       m !! "okta_endpoint" = None.
Proof.
  destruct (okta_endpoint_substituted (Mock.connector_with Mock.creds_okta))
    as [Hret Hpost]; [vm_compute; reflexivity|].
  assert (Hv : valid_credentials Mock.creds_okta = true)
    by (vm_compute; reflexivity).
  destruct (Hret Hv) as [m Hm]. exists m. split; [exact Hm|].
  destruct (Hpost m Hm) as (url & Hurl & _ & Ha & Ho).
  vm_compute in Hurl. injection Hurl as <-. split; [exact Ha | exact Ho].
Defined.

(** Without an endpoint the substitution fails: [dict.pop] raises. *)
Example okta_endpoint_missing :
  _get_connect_params
    (Mock.connector_with
       {| dict := <["okta_endpoint" := VNone]> (dict Mock.creds_okta);
          resolve_private_key := None |})
  = Raise (KeyError "okta_endpoint").
Proof. vm_compute. reflexivity. Qed.

End ConfigFacts.

(** ** Facts on the execution monad *)

Section ExecFacts.
Context {St status : Type} `{!Driver St status}.
Implicit Types (w : world St) (evs pre post : list (event status)).
Implicit Types (ev : event status) (e : exn).

Lemma bind_inv {A B} (m : M A) (k : A → M B) w (o : outcome B) w' evs :
  bind m k w = (o, w', evs) →
  (∃ a w1 evs1 evs2,
      m w = (Done a, w1, evs1) ∧ k a w1 = (o, w', evs2) ∧ evs = evs1 ++ evs2)
  ∨ (∃ e, m w = (Raised e, w', evs) ∧ o = Raised e)
  ∨ (m w = (OutOfFuel, w', evs) ∧ o = OutOfFuel).
Proof.
  unfold bind. destruct (m w) as [[[a|e|] w1] evs1].
  - destruct (k a w1) as [[o2 w2] evs2] eqn:Hk. intros [= <- <- <-].
    left. by exists a, w1, evs1, evs2.
  - intros [= <- <- <-]. right; left. by exists e.
  - intros [= <- <- <-]. by right; right.
Qed.

Lemma call_inv {A} (f : St → result A * St) (mk : result A → event status)
    w (o : outcome A) w' evs :
  call f mk w = (o, w', evs) →
  ∃ r s, f (driver_state w) = (r, s) ∧ o = outcome_of r ∧
         w' = World s (heap w) ∧ evs = [mk r].
Proof.
  unfold call. destruct (f (driver_state w)) as [r s].
  intros [= <- <- <-]. by exists r, s.
Qed.

Lemma finally_inv {A} (body : M A) (close : St → St) ev w (o : outcome A) w' evs :
  finally body close ev w = (o, w', evs) →
  ∃ w1 evs1, body w = (o, w1, evs1) ∧ evs = evs1 ++ closing o ev ∧
    heap w' = heap w1 ∧
    driver_state w' = match o with
                      | OutOfFuel => driver_state w1
                      | _ => close (driver_state w1)
                      end.
Proof.
  unfold finally. destruct (body w) as [[[a|e|] w1] evs1];
    intros [= <- <- <-]; exists w1, evs1; simpl; by rewrite ?app_nil_r.
Qed.

(** *** Where a trace can hold a call that raised *)

Lemma clean_app evs1 evs2 : clean (evs1 ++ evs2) ↔ clean evs1 ∧ clean evs2.
Proof. apply Forall_app. Qed.

Lemma clean_no_raise evs pre ev post e :
  clean evs → evs = pre ++ ev :: post → ev_exn ev = Some e → False.
Proof.
  intros Hc -> He. apply clean_app in Hc as [_ Hc].
  inversion Hc as [|? ? Hev _]; subst. congruence.
Qed.

Lemma raise_position pre ev post pre' ev' post' e e' :
  clean pre → clean post → ev_exn ev = Some e → ev_exn ev' = Some e' →
  pre ++ ev :: post = pre' ++ ev' :: post' →
  pre' = pre ∧ ev' = ev ∧ post' = post.
Proof.
  intros Hpre Hpost He He'. revert pre' Hpre.
  induction pre as [|a pre IH]; intros [|a' pre'] Hpre; simpl; intros [= ? Heq];
    subst.
  - done.
  - exfalso. by eapply (clean_no_raise (pre' ++ ev' :: post')).
  - exfalso. inversion Hpre; subst. congruence.
  - inversion Hpre; subst. destruct (IH pre') as (-> & -> & ->); done.
Qed.

(** In a trace of a coroutine whose calls raise last, a call that raised is
    the last one, and the coroutine raised its exception. *)
Lemma raises_last_split {A} (o : outcome A) evs pre ev post e :
  raises_last o evs → evs = pre ++ ev :: post → ev_exn ev = Some e →
  o = Raised e ∧ post = [] ∧ clean pre.
Proof.
  intros [Hc|(pre0 & ev0 & e0 & -> & Hpre0 & He0 & ->)] Heq He.
  - exfalso. by eapply clean_no_raise.
  - destruct (raise_position pre0 ev0 [] pre ev post e0 e)
      as (-> & -> & ->); try done. by constructor.
    split; [congruence|done].
Qed.

Lemma raises_last_cast {A B} (o : outcome A) (o' : outcome B) evs :
  (∀ e, o = Raised e → o' = Raised e) → raises_last o evs → raises_last o' evs.
Proof.
  intros Ho [Hc|(pre & ev & e & -> & Hpre & He & ->)]; [by left|].
  right. exists pre, ev, e. by rewrite (Ho e).
Qed.

Lemma raises_last_Done {A} (a : A) evs : raises_last (Done a) evs → clean evs.
Proof. by intros [?|(? & ? & ? & _ & _ & _ & ?)]. Qed.

Lemma raises_last_app {A B} (a : A) (o : outcome B) evs1 evs2 :
  raises_last (Done a) evs1 → raises_last o evs2 → raises_last o (evs1 ++ evs2).
Proof.
  intros H1%raises_last_Done [H2|(pre & ev & e & -> & Hpre & He & ->)].
  - left. by apply clean_app.
  - right. exists (evs1 ++ pre), ev, e. rewrite app_assoc.
    split; [done|]. split; [by apply clean_app|done].
Qed.

(** *** The observations distribute over concatenation *)

Lemma submitted_app evs1 evs2 :
  submitted (evs1 ++ evs2) = submitted evs1 ++ submitted evs2.
Proof.
  induction evs1 as [|[] evs1 IH]; simpl; by rewrite ?IH.
Qed.

Lemma status_checks_app evs1 evs2 :
  status_checks (evs1 ++ evs2) = status_checks evs1 ++ status_checks evs2.
Proof.
  induction evs1 as [|[] evs1 IH]; simpl; by rewrite ?IH.
Qed.

Lemma suspensions_app evs1 evs2 :
  suspensions (evs1 ++ evs2) = suspensions evs1 + suspensions evs2.
Proof. unfold suspensions. by rewrite filter_app, length_app. Qed.

Lemma running_checks_app evs1 evs2 :
  running_checks (evs1 ++ evs2) = running_checks evs1 + running_checks evs2.
Proof. unfold running_checks. by rewrite filter_app, length_app. Qed.

Lemma suspensions_cons ev evs :
  suspensions (ev :: evs) = (if is_sleep ev then 1 else 0) + suspensions evs.
Proof.
  unfold suspensions. rewrite filter_cons.
  destruct (is_sleep ev); by case_decide.
Qed.

Lemma running_checks_cons ev evs :
  running_checks (ev :: evs) =
  (if is_running_check ev then 1 else 0) + running_checks evs.
Proof.
  unfold running_checks. rewrite filter_cons.
  destruct (is_running_check ev); by case_decide.
Qed.

Lemma is_poll_submitted evs :
  Forall (λ ev, is_poll ev = true) evs → submitted evs = [].
Proof. induction 1 as [|[] ? ? ? IH]; simpl in *; done. Qed.

Lemma is_poll_not_fetch evs :
  Forall (λ ev, is_poll ev = true) evs → Forall (λ ev, is_fetch ev = false) evs.
Proof. intros H. eapply Forall_impl; [exact H|]. by intros []. Qed.

Lemma is_poll_results cur evs evs' :
  Forall (λ ev, is_poll ev = true) evs →
  results_by_query cur (evs ++ evs') = results_by_query cur evs'.
Proof. induction 1 as [|[] ? ? ? IH]; simpl in *; done. Qed.

(** *** The poll loop *)

Lemma poll_spec fuel interval id w o w' evs :
  poll fuel interval id w = (o, w', evs) →
  poll_trace interval id o evs ∧ heap w' = heap w.
Proof.
  revert w o w' evs. induction fuel as [|fuel IH]; intros w o w' evs; simpl.
  { intros [= <- <- <-]. split; [constructor|done]. }
  intros [(st & w1 & evs1 & evs2 & Hst & Hk & ->)
         |[(e & Hst & ->)|[Hst ->]]]%bind_inv;
    apply call_inv in Hst as (r & s & Hr & Ho & -> & ->);
    destruct r as [st'|e']; simplify_eq/=.
  - destruct (is_still_running st') eqn:Hrun.
    + apply bind_inv in Hk
        as [(? & w2 & evs3 & evs4 & Hsl & Hk & ->)
           |[(e & Hsl & ->)|[Hsl ->]]];
        apply call_inv in Hsl as (r & s' & Hr' & Ho & -> & ->);
        destruct r as [[]|e']; simplify_eq/=.
      * apply IH in Hk as [Hk Hh]. split; [by constructor|done].
      * split; [by constructor|done].
    + injection Hk as <- <- <-. split; [by constructor|done].
  - split; [constructor|done].
Qed.

Lemma poll_trace_is_poll interval id o evs :
  poll_trace interval id o evs → Forall (λ ev, is_poll ev = true) evs.
Proof. induction 1; repeat constructor; done. Qed.

Lemma poll_trace_raises_last interval id o evs :
  poll_trace interval id o evs → raises_last o evs.
Proof.
  induction 1 as [|st Hst|e|st e Hst|st o evs Hst _ IH].
  - left. constructor.
  - left. by repeat constructor.
  - right. exists [], (EvStatus id (Raise e)), e. solve_raises.
  - right. exists [EvStatus id (Ok st)], (EvSleep interval (Raise e)), e.
    solve_raises.
  - destruct IH as [Hc|(pre & ev & e & -> & Hpre & He & ->)].
    + left. by repeat constructor.
    + right.
      exists (EvStatus id (Ok st) :: EvSleep interval (Ok tt) :: pre), ev, e.
      solve_raises.
Qed.

(** The suspensions of the poll loop are as many as the status checks that
    report a running query. *)
Lemma poll_trace_balanced interval id o evs :
  poll_trace interval id o evs → suspensions evs = running_checks evs.
Proof.
  induction 1 as [|st Hst|e|st e Hst|st o evs Hst _ IH];
    rewrite ?suspensions_cons, ?running_checks_cons; simpl;
    rewrite ?Hst; simpl; try done.
  by rewrite IH.
Qed.

Lemma poll_trace_three interval id o evs s1 s2 s3 :
  poll_trace interval id o evs →
  status_checks evs = [Ok s1; Ok s2; Ok s3] →
  is_still_running s3 = false →
  o = Done tt ∧
  evs = [EvStatus id (Ok s1); EvSleep interval (Ok tt);
         EvStatus id (Ok s2); EvSleep interval (Ok tt);
         EvStatus id (Ok s3)].
Proof.
  intros H Hs H3.
  repeat match goal with
  | H : poll_trace _ _ _ _ |- _ => inversion H; clear H; simplify_eq/=
  end; try congruence; by split.
Qed.

(** *** Submission, polling and loading of one operation *)

Lemma submit_and_wait_spec fuel q p kw interval w o w' evs :
  submit_and_wait fuel q p kw interval w = (o, w', evs) →
  submit_trace q p kw interval o evs ∧ heap w' = heap w.
Proof.
  unfold submit_and_wait.
  intros [(id & w1 & evs1 & evs2 & Hex & Hk & ->)
         |[(e & Hex & ->)|[Hex ->]]]%bind_inv;
    apply call_inv in Hex as (r & s & Hr & Ho & -> & ->);
    destruct r as [id'|e']; simplify_eq/=; [|split; [constructor|done]].
  apply bind_inv in Hk
    as [([] & w2 & evs3 & evs4 & Hp & Hk & ->)|[(e & Hp & ->)|[Hp ->]]];
    apply poll_spec in Hp as [Hp Hh]; simpl in Hh;
    [|split; [by constructor|done]..].
  apply bind_inv in Hk
    as [([] & w3 & evs5 & evs6 & Hg & Hk & ->)|[(e & Hg & ->)|[Hg ->]]];
    apply call_inv in Hg as (r & s' & Hr' & Ho & -> & ->);
    destruct r as [[]|e']; simplify_eq/=.
  - injection Hk as <- <- <-. split; [by constructor|done].
  - split; [by constructor|done].
Qed.

Lemma submit_trace_raises_last q p kw interval o evs :
  submit_trace q p kw interval o evs → raises_last o evs.
Proof.
  destruct 1 as [e|id e pevs Hp|id pevs Hp|id e pevs Hp|id pevs Hp].
  - right. exists [], (EvExecuteAsync q p kw (Raise e)), e. solve_raises.
  - apply poll_trace_raises_last in Hp
      as [Hc|(pre & ev & e' & -> & Hpre & He & [= ->])].
    + left. by constructor.
    + right. exists (EvExecuteAsync q p kw (Ok id) :: pre), ev, e'.
      solve_raises.
  - apply poll_trace_raises_last in Hp as [Hc|(? & ? & ? & _ & _ & _ & ?)];
      [|done]. left. by constructor.
  - apply poll_trace_raises_last, raises_last_Done in Hp.
    right. exists (EvExecuteAsync q p kw (Ok id) :: pevs),
      (EvGetResults id (Raise e)), e. solve_raises.
  - apply poll_trace_raises_last, raises_last_Done in Hp.
    left. constructor; [done|]. apply clean_app. split; [done|].
    by repeat constructor.
Qed.

Lemma submit_trace_submitted q p kw interval o evs :
  submit_trace q p kw interval o evs → submitted evs = [q].
Proof.
  destruct 1 as [e|id e pevs Hp|id pevs Hp|id e pevs Hp|id pevs Hp];
    simpl; rewrite ?submitted_app;
    rewrite ?(is_poll_submitted pevs) by (eapply poll_trace_is_poll; eassumption);
    done.
Qed.

Lemma submit_trace_balanced q p kw interval o evs :
  submit_trace q p kw interval o evs → suspensions evs = running_checks evs.
Proof.
  destruct 1 as [e|id e pevs Hp|id pevs Hp|id e pevs Hp|id pevs Hp];
    rewrite ?suspensions_cons, ?running_checks_cons,
      ?suspensions_app, ?running_checks_app; simpl;
    try rewrite (poll_trace_balanced _ _ _ _ Hp); done.
Qed.

Lemma submit_trace_not_fetch q p kw interval o evs :
  submit_trace q p kw interval o evs → Forall (λ ev, is_fetch ev = false) evs.
Proof.
  destruct 1 as [e|id e pevs Hp|id pevs Hp|id e pevs Hp|id pevs Hp];
    repeat first [ apply Forall_cons; split; [done|]
                 | apply Forall_app; split
                 | by eapply is_poll_not_fetch, poll_trace_is_poll
                 | by apply Forall_nil ].
Qed.

Lemma submit_trace_results q p kw interval id evs cur evs' :
  submit_trace q p kw interval (Done id) evs →
  results_by_query cur (evs ++ evs') = results_by_query (Some q) evs'.
Proof.
  inversion 1 as [| | | |id' pevs Hp]; subst; simpl.
  rewrite <- app_assoc.
  by rewrite is_poll_results by (eapply poll_trace_is_poll; eassumption).
Qed.

(** *** The [with] blocks *)

Lemma get_connection_inv self autocommit w o w' evs :
  get_connection self autocommit w = (o, w', evs) →
  (∃ e, _get_connect_params self = Raise e ∧ o = Raised e ∧ w' = w ∧ evs = [])
  ∨ (∃ p r s,
       _get_connect_params self = Ok p ∧
       connect (<["autocommit" := VBool autocommit]> p) (driver_state w) = (r, s) ∧
       o = outcome_of r ∧ w' = World s (heap w) ∧
       evs = [EvConnect (<["autocommit" := VBool autocommit]> p) r]).
Proof.
  unfold get_connection, lift.
  intros [(p & w1 & evs1 & evs2 & Hp & Hk & ->)
         |[(e & Hp & ->)|[Hp ->]]]%bind_inv;
    destruct (_get_connect_params self) as [p'|e']; simplify_eq/=.
  - apply call_inv in Hk as (r & s & Hr & -> & -> & ->).
    right. by eexists _, _, _.
  - left. by eexists.
Qed.

Lemma with_connection_inv {A} self (body : M A) w (o : outcome A) w' evs :
  with_connection self body w = (o, w', evs) →
  (∃ e, o = Raised e ∧ heap w' = heap w ∧
        (evs = [] ∨ ∃ p, evs = [EvConnect p (Raise e)]))
  ∨ (∃ p s w1 evs1,
       connect p (driver_state w) = (Ok tt, s) ∧
       body (World s (heap w)) = (o, w1, evs1) ∧
       evs = EvConnect p (Ok tt) :: evs1 ++ closing o EvConnectionClose ∧
       heap w' = heap w1).
Proof.
  unfold with_connection.
  intros [([] & w1 & evs1 & evs2 & Hc & Hk & ->)
         |[(e & Hc & ->)|[Hc ->]]]%bind_inv;
    apply get_connection_inv in Hc
      as [(e' & Hp & Ho & -> & ->)|(p & r & s & Hp & Hr & Ho & -> & ->)];
    try destruct r as [[]|e'']; simplify_eq/=.
  - apply finally_inv in Hk as (w2 & evs3 & Hb & -> & Hh & _).
    right. by eexists _, _, _, _.
  - left. eexists. split; [done|]. split; [done|]. by left.
  - left. eexists. split; [done|]. split; [done|]. right. by eexists.
Qed.

Lemma with_cursor_inv {A} ct (body : M A) w (o : outcome A) w' evs :
  with_cursor ct body w = (o, w', evs) →
  (∃ e, o = Raised e ∧ heap w' = heap w ∧ evs = [EvCursor ct (Raise e)])
  ∨ (∃ s w1 evs1,
       cursor ct (driver_state w) = (Ok tt, s) ∧
       body (World s (heap w)) = (o, w1, evs1) ∧
       evs = EvCursor ct (Ok tt) :: evs1 ++ closing o EvCursorClose ∧
       heap w' = heap w1).
Proof.
  unfold with_cursor.
  intros [([] & w1 & evs1 & evs2 & Hc & Hk & ->)
         |[(e & Hc & ->)|[Hc ->]]]%bind_inv;
    apply call_inv in Hc as (r & s & Hr & Ho & -> & ->);
    destruct r as [[]|e'']; simplify_eq/=.
  - apply finally_inv in Hk as (w2 & evs3 & Hb & -> & Hh & _).
    right. by eexists _, _, _.
  - left. by eexists.
Qed.

(** *** The loop over the queries *)

Lemma run_queries_spec fuel qs params interval acc w o w' evs cur :
  run_queries fuel qs params interval acc w = (o, w', evs) →
  heap w' = heap w ∧
  raises_last o evs ∧
  (∃ k, submitted evs = take k qs) ∧
  suspensions evs = running_checks evs ∧
  ∀ res, o = Done res →
    ∃ rs, res = acc ++ rs ∧ length rs = length qs ∧
          results_by_query cur evs = zip qs rs ∧ submitted evs = qs.
Proof.
  revert acc w o w' evs cur.
  induction qs as [|q qs IH]; intros acc w o w' evs cur; simpl.
  { intros [= <- <- <-]. split; [done|]. split; [left; constructor|].
    split; [by exists 0|]. split; [done|]. intros res [= <-].
    exists []. by rewrite app_nil_r. }
  intros [(id & w1 & evs1 & evs2 & Hs & Hk & ->)
         |[(e & Hs & ->)|[Hs ->]]]%bind_inv;
    apply submit_and_wait_spec in Hs as [Hs Hh1];
    pose proof (submit_trace_raises_last _ _ _ _ _ _ Hs) as Hrl;
    pose proof (submit_trace_submitted _ _ _ _ _ _ Hs) as Hsub;
    pose proof (submit_trace_balanced _ _ _ _ _ _ Hs) as Hbal.
  - apply bind_inv in Hk
      as [(r & w2 & evs3 & evs4 & Hf & Hk & ->)|[(e & Hf & ->)|[Hf ->]]];
      apply call_inv in Hf as (r' & s & Hr & Ho & -> & ->);
      destruct r' as [r''|e']; simplify_eq/=.
    + apply (IH _ _ _ _ _ (Some q)) in Hk
        as (Hh & Hrl' & [k Hk] & Hbal' & Hres).
      split; [by rewrite Hh|].
      split.
      { eapply raises_last_app; [done|].
        apply (raises_last_app r'' o [EvFetchAll (Ok r'')]); [|done].
        left. by repeat constructor. }
      split.
      { exists (S k). rewrite submitted_app, Hsub. simpl. by rewrite Hk. }
      split.
      { rewrite suspensions_app, running_checks_app, Hbal,
          suspensions_cons, running_checks_cons. simpl. by rewrite Hbal'. }
      intros res ->. destruct (Hres res eq_refl) as (rs & -> & Hlen & Hz & Hq).
      exists (r'' :: rs). rewrite <- app_assoc. split; [done|].
      split; [simpl; by rewrite Hlen|].
      rewrite (submit_trace_results _ _ _ _ _ _ _ _ Hs). simpl.
      rewrite Hz. split; [done|].
      rewrite submitted_app, Hsub. simpl. by rewrite Hq.
    + split; [done|]. split.
      { right. exists evs1, (EvFetchAll (Raise e')), e'.
        split; [done|]. split; [by eapply raises_last_Done|done]. }
      split.
      { exists 1. rewrite submitted_app, Hsub. simpl. by rewrite take_0. }
      split; [|done].
      rewrite suspensions_app, running_checks_app, Hbal. done.
  - split; [done|].
    split; [eapply raises_last_cast; [|exact Hrl]; by intros ? [= ->]|].
    split; [|done]. exists 1. rewrite Hsub. simpl. by rewrite take_0.
  - split; [done|].
    split; [eapply raises_last_cast; [|exact Hrl]; done|].
    split; [|done]. exists 1. rewrite Hsub. simpl. by rewrite take_0.
Qed.

(** *** The tasks and methods as a whole *)

Lemma alter_Some (f : list string → list string) (l : loc)
    (h : gmap loc (list string)) x :
  h !! l = Some x → alter f l h = <[l := f x]> h.
Proof.
  intros Hl. apply map_eq. intros j.
  rewrite lookup_alter, lookup_insert. case_decide; subst; by rewrite ?Hl.
Qed.

Lemma clean_elem_of evs ev e : clean evs → ev ∈ evs → ev_exn ev = Some e → False.
Proof.
  unfold clean. rewrite Forall_forall. intros Hc Hin He.
  specialize (Hc ev Hin). congruence.
Qed.

Lemma closing_clean {A} (o : outcome A) ev :
  ev_exn ev = None → clean (closing o ev).
Proof. intros He. destruct o; by repeat constructor. Qed.

Lemma results_silent cur evs :
  Forall (λ ev, is_fetch ev = false) evs →
  submitted evs = [] → results_by_query cur evs = [].
Proof. induction 1 as [|[] ? ? ? IH]; simpl in *; done. Qed.

Lemma results_app_silent cur evs evs' :
  Forall (λ ev, is_fetch ev = false) evs' → submitted evs' = [] →
  results_by_query cur (evs ++ evs') = results_by_query cur evs.
Proof.
  intros H1 H2. revert cur.
  induction evs as [|ev evs IH]; intros cur; simpl.
  { by apply results_silent. }
  destruct ev; try done. destruct r; [|done]. destruct cur; by rewrite IH.
Qed.

(** The body of the outer [with] block of [snowflake_multiquery]: the
    caller's list is changed in place, then read by the loop. *)
Lemma multiquery_body_eq fuel l params ct (at_ : bool) interval s
    (h : gmap loc (list string)) ops :
  h !! l = Some ops →
  (let! _ := if at_
             then let! _ := list_insert0 l BEGIN_TRANSACTION_STATEMENT in
                  list_append l END_TRANSACTION_STATEMENT
             else ret tt in
   with_cursor ct
     (let! qs := list_read l in
      run_queries fuel qs params interval [])) (World s h)
  = with_cursor ct (run_queries fuel (bracketed at_ ops) params interval [])
      (World s (<[l := bracketed at_ ops]> h)).
Proof.
  intros Hl.
  assert (Hrd : ∀ (h' : gmap loc (list string)) s',
    h' !! l = Some (bracketed at_ ops) →
    with_cursor ct (let! qs := list_read l in
                    run_queries fuel qs params interval []) (World s' h')
    = with_cursor ct (run_queries fuel (bracketed at_ ops) params interval [])
        (World s' h')).
  { intros h' s' Hh. unfold with_cursor, bind at 1 3. simpl.
    destruct (call _ _ _) as [[[[]|e|] w1] evs1] eqn:Hc; [|done..].
    apply call_inv in Hc as (r & s'' & _ & _ & -> & _).
    unfold finally, bind, list_read. simpl. rewrite Hh. simpl.
    by destruct (run_queries _ _ _ _ _ _) as [[[?|?|] ?] ?]. }
  destruct at_; simpl.
  - unfold bind at 1. unfold bind at 1. simpl.
    rewrite (alter_Some _ _ _ _ Hl).
    rewrite (alter_Some _ _ _ (BEGIN_TRANSACTION_STATEMENT :: ops))
      by (by rewrite lookup_insert_eq).
    rewrite insert_insert_eq.
    rewrite Hrd by (by rewrite lookup_insert_eq).
    by destruct (with_cursor _ _ _) as [[? ?] ?].
  - unfold bind at 1. simpl. rewrite (insert_id _ _ _ Hl).
    rewrite Hrd by done.
    by destruct (with_cursor _ _ _) as [[? ?] ?].
Qed.

Lemma snowflake_multiquery_inv fuel l self params ct at_ rtcr interval
    w ops o w' evs :
  heap w !! l = Some ops →
  snowflake_multiquery fuel l self params ct at_ rtcr interval w = (o, w', evs) →
  (∃ e, o = Raised e ∧ heap w' = heap w ∧
        (evs = [] ∨ ∃ p, evs = [EvConnect p (Raise e)]))
  ∨ (∃ p e, o = Raised e ∧ heap w' = <[l := bracketed at_ ops]> (heap w) ∧
            evs = [EvConnect p (Ok tt); EvCursor ct (Raise e); EvConnectionClose])
  ∨ (∃ p o1 w1 w2 evs1,
       run_queries fuel (bracketed at_ ops) params interval [] w1 = (o1, w2, evs1) ∧
       heap w' = <[l := bracketed at_ ops]> (heap w) ∧
       evs = EvConnect p (Ok tt) :: EvCursor ct (Ok tt) ::
             evs1 ++ closing o1 EvCursorClose ++ closing o1 EvConnectionClose ∧
       o = match o1 with
           | Done res => Done (if at_ && negb rtcr then slice_1_m1 res else res)
           | Raised e => Raised e
           | OutOfFuel => OutOfFuel
           end).
Proof.
  intros Hl. unfold snowflake_multiquery. intros Hrun.
  pose proof (λ s, multiquery_body_eq fuel l params ct at_ interval s _ _ Hl)
    as Hmut.
  apply bind_inv in Hrun
    as [(res & w1 & evs1 & evs2 & Hc & Hk & ->)|[(e & Hc & ->)|[Hc ->]]];
    apply with_connection_inv in Hc
      as [(e' & Ho & Hh & Hevs)
         |(p & s & w2 & evs3 & Hconn & Hb & -> & Hh)];
    try done; simplify_eq/=;
    try (rewrite Hmut in Hb;
         apply with_cursor_inv in Hb
           as [(e' & Ho & Hh' & ->)
              |(s' & w3 & evs4 & Hcur & Hb & -> & Hh')];
         simplify_eq/=).
  - pose proof (run_queries_spec _ _ _ _ _ _ _ _ _ None Hb) as [Hh3 _].
    simpl in Hh3.
    assert (o = Done (if at_ && negb rtcr then slice_1_m1 res else res)
            ∧ w' = w1 ∧ evs2 = []) as (-> & -> & ->)
      by (by destruct (at_ && negb rtcr); injection Hk as <- <- <-).
    right; right. eexists p, (Done res), _, w3, evs4.
    split; [done|]. split; [congruence|]. split; [|done].
    simpl. by rewrite <- !app_assoc.
  - left. by eexists.
  - right; left. eexists _, _. split; [done|]. split; [congruence|done].
  - pose proof (run_queries_spec _ _ _ _ _ _ _ _ _ None Hb) as [Hh3 _].
    simpl in Hh3.
    right; right. eexists p, (Raised _), _, w3, evs4.
    split; [done|]. split; [congruence|]. split; [|done].
    simpl. by rewrite <- !app_assoc.
  - pose proof (run_queries_spec _ _ _ _ _ _ _ _ _ None Hb) as [Hh3 _].
    simpl in Hh3.
    right; right. eexists p, OutOfFuel, _, w3, evs4.
    split; [done|]. split; [congruence|]. split; [|done].
    simpl. by rewrite !app_nil_r.
Qed.




(** *** Runs against a cooperative driver *)

Lemma bind_Done {A B} (m : M A) (k : A → M B) w a w1 evs1 o w2 evs2 :
  m w = (Done a, w1, evs1) → k a w1 = (o, w2, evs2) →
  bind m k w = (o, w2, evs1 ++ evs2).
Proof. intros Hm Hk. unfold bind. by rewrite Hm, Hk. Qed.

Lemma call_Ok {A} (f : St → result A * St) (mk : result A → event status)
    w a s :
  f (driver_state w) = (Ok a, s) →
  call f mk w = (Done a, World s (heap w), [mk (Ok a)]).
Proof. intros Hf. unfold call. by rewrite Hf. Qed.

Section Cooperative.
Context (good : St → Prop) (budget : St → nat).
Hypothesis Hcoop : cooperative good budget.

Lemma poll_cooperative interval id s h :
  good s →
  ∃ s' evs, good s' ∧
    ∀ fuel, (budget s < fuel)%nat →
      poll fuel interval id (World s h) = (Done tt, World s' h, evs).
Proof.
  remember (budget s) as n eqn:Hn. revert s Hn.
  induction n as [n IH] using lt_wf_ind. intros s -> Hs.
  destruct (coop_status _ _ Hcoop id s Hs) as (st & s1 & Hst & Hs1 & Hdec).
  destruct (is_still_running st) eqn:Hrun.
  - destruct (coop_sleep _ _ Hcoop interval s1 Hs1) as (s2 & Hsl & Hs2 & Hle).
    specialize (Hdec eq_refl).
    destruct (IH (budget s2) ltac:(lia) s2 eq_refl Hs2) as (s' & evs & Hs' & Hp).
    exists s', (EvStatus id (Ok st) :: EvSleep interval (Ok tt) :: evs).
    split; [done|]. intros [|fuel] Hf; [lia|]. simpl.
    eapply (bind_Done _ _ _ st _ [_]); [by apply call_Ok|]. rewrite Hrun.
    eapply (bind_Done _ _ _ tt _ [_]); [by apply call_Ok|].
    apply Hp. lia.
  - exists s1, [EvStatus id (Ok st)]. split; [done|].
    intros [|fuel] Hf; [lia|]. simpl.
    eapply (bind_Done _ _ _ st _ [_] _ _ []); [by apply call_Ok|].
    by rewrite Hrun.
Qed.

Lemma submit_and_wait_cooperative q p kw interval s h :
  good s →
  ∃ fuel0 id s' evs, good s' ∧
    ∀ fuel, (fuel0 ≤ fuel)%nat →
      submit_and_wait fuel q p kw interval (World s h)
      = (Done id, World s' h, evs).
Proof.
  intros Hs.
  destruct (coop_execute_async _ _ Hcoop q p kw s Hs) as (id & s1 & Hex & Hs1).
  destruct (poll_cooperative interval id s1 h Hs1) as (s2 & pevs & Hs2 & Hp).
  destruct (coop_get_results _ _ Hcoop id s2 Hs2) as (s3 & Hg & Hs3).
  exists (S (budget s1)), id, s3,
    (EvExecuteAsync q p kw (Ok id) :: pevs ++ [EvGetResults id (Ok tt)]).
  split; [done|]. intros fuel Hf. unfold submit_and_wait.
  eapply (bind_Done _ _ _ id _ [_]); [by apply call_Ok|].
  eapply (bind_Done _ _ _ tt); [apply Hp; simpl; lia|].
  eapply (bind_Done _ _ _ tt _ [_] _ _ []); [by apply call_Ok|done].
Qed.

Lemma run_queries_cooperative qs params interval acc s h :
  good s →
  ∃ fuel0 res s' evs, good s' ∧
    ∀ fuel, (fuel0 ≤ fuel)%nat →
      run_queries fuel qs params interval acc (World s h)
      = (Done res, World s' h, evs).
Proof.
  revert acc s. induction qs as [|q qs IH]; intros acc s Hs.
  { exists 0, acc, s, []. by split. }
  destruct (submit_and_wait_cooperative q params ∅ interval s h Hs)
    as (f1 & id & s1 & evs1 & Hs1 & Hsub).
  destruct (coop_fetchall _ _ Hcoop s1 Hs1) as (r & s2 & Hf & Hs2).
  destruct (IH (acc ++ [r]) s2 Hs2) as (f2 & res & s3 & evs3 & Hs3 & Hrest).
  exists (Nat.max f1 f2), res, s3, (evs1 ++ [EvFetchAll (Ok r)] ++ evs3).
  split; [done|]. intros fuel Hfuel. simpl.
  eapply bind_Done; [apply Hsub; lia|].
  eapply (bind_Done _ _ _ r _ [_]); [by apply call_Ok|].
  apply Hrest. lia.
Qed.

End Cooperative.

Lemma get_connection_Done self autocommit w p s :
  _get_connect_params self = Ok p →
  connect (<["autocommit" := VBool autocommit]> p) (driver_state w) = (Ok tt, s) →
  get_connection self autocommit w
  = (Done tt, World s (heap w),
     [EvConnect (<["autocommit" := VBool autocommit]> p) (Ok tt)]).
Proof.
  intros Hp Hc. unfold get_connection.
  eapply (bind_Done _ _ _ p _ []); [unfold lift; by rewrite Hp|].
  by apply call_Ok.
Qed.

Lemma finally_Done {A} (body : M A) close ev w (a : A) w1 evs1 :
  body w = (Done a, w1, evs1) →
  finally body close ev w
  = (Done a, World (close (driver_state w1)) (heap w1), evs1 ++ [ev]).
Proof. intros Hb. unfold finally. by rewrite Hb. Qed.

Lemma slice_1_m1_middle {A} (a b : A) l : slice_1_m1 (a :: l ++ [b]) = l.
Proof.
  unfold slice_1_m1.
  replace (length (a :: l ++ [b]) - 1) with (length (a :: l))
    by (simpl; rewrite length_app; simpl; lia).
  change (a :: l ++ [b]) with ((a :: l) ++ [b]).
  by rewrite take_app_length.
Qed.

Lemma bracket_split {A} (l : list A) n :
  length l = S (n + 1) → ∃ a m b, l = a :: m ++ [b] ∧ length m = n.
Proof.
  destruct l as [|a l]; [done|]. simpl. intros [= Hlen].
  destruct (exists_last (l:=l)) as (m & b & ->).
  { intros ->; simpl in Hlen; lia. }
  exists a, m, b. split; [done|]. rewrite length_app in Hlen. simpl in Hlen. lia.
Qed.

End ExecFacts.

(** ** The multi-query runner *)

Section Multiquery.
Context {St status : Type} `{!Driver St status}.
Implicit Types (w : world St) (evs pre post : list (event status)).

(** Claim C1.  With [as_transaction] true, [snowflake_multiquery] returns
    one result set per operation of the caller's list, in the order of the
    list: the result sets fetched are those of BEGIN, of the operations in
    order and of COMMIT; without [return_transaction_control_results] the
    first and the last are cut off and [len(ops)] remain, with it all
    [len(ops) + 2] are returned, BEGIN's first and COMMIT's last.  Against a
    cooperative driver the task does return, for every large enough bound on
    the status checks. *)
Theorem multiquery_transaction_results l self params ct rtcr interval w ops :
  heap w !! l = Some ops →
  (∀ fuel res w' evs,
     snowflake_multiquery fuel l self params ct true rtcr interval w
       = (Done res, w', evs) →
     ∃ rb rs rc,
       length rs = length ops ∧
       results_by_query None evs
         = (BEGIN_TRANSACTION_STATEMENT, rb) :: zip ops rs
           ++ [(END_TRANSACTION_STATEMENT, rc)] ∧
       res = (if rtcr then rb :: rs ++ [rc] else rs) ∧
       length res = (if rtcr then length ops + 2 else length ops)) ∧
  (∀ good budget,
     cooperative good budget → good (driver_state w) →
     valid_credentials (credentials self) = true →
     ∃ fuel0 res w' evs, ∀ fuel, (fuel0 ≤ fuel)%nat →
       snowflake_multiquery fuel l self params ct true rtcr interval w
         = (Done res, w', evs)).
Proof.
  intros Hl. split.
  - intros fuel res w' evs Hrun.
    apply (snowflake_multiquery_inv _ _ _ _ _ _ _ _ _ _ _ _ _ Hl) in Hrun
      as [(e & ? & _)|[(p & e & ? & _)
         |(p & o1 & w1 & w2 & evs1 & Hq & Hh & -> & Ho)]]; [done..|].
    destruct o1 as [res1| |]; [|done..]. injection Ho as ->.
    apply (run_queries_spec _ _ _ _ _ _ _ _ _ None) in Hq
      as (_ & _ & _ & _ & Hres).
    destruct (Hres res1 eq_refl) as (rs_all & -> & Hlen & Hz & _).
    simpl in Hlen. rewrite length_app in Hlen. simpl in Hlen.
    destruct (bracket_split rs_all (length ops) Hlen) as (rb & rs & rc & -> & Hrs).
    exists rb, rs, rc. split; [done|]. split; [|split].
    + simpl. rewrite results_app_silent by (by repeat constructor).
      rewrite Hz. simpl. by rewrite zip_with_app.
    + simpl. destruct rtcr; simpl; [done|]. by rewrite slice_1_m1_middle.
    + simpl. destruct rtcr; simpl; [|by rewrite slice_1_m1_middle].
      rewrite length_app. simpl. lia.
  - intros good budget Hcoop Hgood Hvalid.
    destruct (get_connect_params_returns self Hvalid) as [p Hp].
    destruct (coop_connect _ _ Hcoop (<["autocommit" := VBool true]> p)
                _ Hgood) as (s1 & Hconn & Hs1).
    destruct (coop_cursor _ _ Hcoop ct s1 Hs1) as (s2 & Hcur & Hs2).
    destruct (run_queries_cooperative good budget Hcoop
                (bracketed true ops) params interval [] s2
                (<[l := bracketed true ops]> (heap w)) Hs2)
      as (f0 & res & s3 & evs & Hs3 & Hq).
    exists f0. destruct rtcr; eexists _, _, _; intros fuel Hf;
      unfold snowflake_multiquery, with_connection.
    + eapply (bind_Done _ _ _ res).
      { eapply bind_Done; [by apply get_connection_Done|].
        apply finally_Done.
        etrans;
          [exact (multiquery_body_eq fuel l params ct true interval s1 _ _ Hl)|].
        unfold with_cursor.
        eapply bind_Done; [by apply call_Ok|].
        apply finally_Done. by apply Hq. }
      reflexivity.
    + eapply (bind_Done _ _ _ res).
      { eapply bind_Done; [by apply get_connection_Done|].
        apply finally_Done.
        etrans;
          [exact (multiquery_body_eq fuel l params ct true interval s1 _ _ Hl)|].
        unfold with_cursor.
        eapply bind_Done; [by apply call_Ok|].
        apply finally_Done. by apply Hq. }
      reflexivity.
Qed.

(** Claim C2.  Three operations, and the status check that raises
    [StatusError] is that of the second one (when it is made, the operations
    up to the second have been submitted and no other): the task raises
    [StatusError], nothing is called afterwards but the closing of the cursor
    and of the connection, so the third operation is never submitted, and no
    result set is returned. *)
Theorem multiquery_status_error_aborts fuel l self params ct (at_ rtcr : bool)
    interval w q1 q2 q3 o w' evs pre id post :
  heap w !! l = Some [q1; q2; q3] →
  snowflake_multiquery fuel l self params ct at_ rtcr interval w = (o, w', evs) →
  evs = pre ++ EvStatus id (Raise StatusError) :: post →
  length (submitted pre) = (if at_ then 3 else 2) →
  o = Raised StatusError ∧
  post = [EvCursorClose; EvConnectionClose] ∧
  submitted evs = (if at_ then [BEGIN_TRANSACTION_STATEMENT; q1; q2]
                   else [q1; q2]).
Proof.
  intros Hl Hrun Hevs Hlen.
  apply (snowflake_multiquery_inv _ _ _ _ _ _ _ _ _ _ _ _ _ Hl) in Hrun
    as [(e & _ & _ & [->|[p ->]])|[(p & e & _ & _ & ->)
       |(p & o1 & w1 & w2 & evs1 & Hq & Hh & Hevs1 & Ho)]].
  - by destruct pre.
  - by destruct pre as [|? [|]].
  - by destruct pre as [|? [|? [|? [|]]]].
  - apply (run_queries_spec _ _ _ _ _ _ _ _ _ None) in Hq
      as (_ & Hrl & [k Hk] & _ & _).
    destruct Hrl as [Hc|(pre1 & ev1 & e1 & -> & Hpre1 & He1 & ->)].
    { exfalso. eapply (clean_no_raise evs); [|exact Hevs|done].
      rewrite Hevs1. constructor; [done|]. constructor; [done|].
      apply clean_app. split; [done|]. apply clean_app.
      split; by apply closing_clean. }
    simpl in Hevs1. rewrite <- app_assoc in Hevs1. simpl in Hevs1.
    assert (Heq : (EvConnect p (Ok tt) :: EvCursor ct (Ok tt) :: pre1)
                  ++ ev1 :: [EvCursorClose; EvConnectionClose]
                  = pre ++ EvStatus id (Raise StatusError) :: post)
      by (simpl; congruence).
    destruct (raise_position
                (EvConnect p (Ok tt) :: EvCursor ct (Ok tt) :: pre1) ev1
                [EvCursorClose; EvConnectionClose]
                pre (EvStatus id (Raise StatusError)) post e1 StatusError
                ltac:(solve_raises) ltac:(solve_raises) He1 eq_refl Heq)
      as (-> & <- & ->).
    simpl in He1. injection He1 as <-. split; [done|]. split; [done|].
    rewrite Hevs1. simpl in *. rewrite submitted_app in *. simpl in *.
    rewrite app_nil_r in *. rewrite Hk in *.
    destruct at_; simpl in *;
      destruct k as [|[|[|[|[|[|]]]]]]; simpl in *; done.
Qed.


End Multiquery.

(** ** The asynchronous executor *)

Section Async.
Context {St status : Type} `{!Driver St status}.
Implicit Types (w : world St) (evs pre post : list (event status)).

Lemma async_execute_operation_inv {A} fuel self op params ct interval kw
    (body : M A) w (o : outcome A) w' evs :
  _async_execute_operation fuel self op params ct interval kw body w
    = (o, w', evs) →
  (∃ e, o = Raised e ∧ (evs = [] ∨ ∃ p, evs = [EvConnect p (Raise e)]))
  ∨ (∃ p e, o = Raised e ∧
            evs = [EvConnect p (Ok tt); EvCursor ct (Raise e); EvConnectionClose])
  ∨ (∃ p so sevs,
       submit_trace op params kw interval so sevs ∧ stopped so o ∧
       evs = EvConnect p (Ok tt) :: EvCursor ct (Ok tt) ::
             sevs ++ closing o EvCursorClose ++ closing o EvConnectionClose)
  ∨ (∃ p id sevs w1 w2 bevs,
       submit_trace op params kw interval (Done id) sevs ∧
       body w1 = (o, w2, bevs) ∧
       evs = EvConnect p (Ok tt) :: EvCursor ct (Ok tt) ::
             (sevs ++ bevs) ++ closing o EvCursorClose
             ++ closing o EvConnectionClose).
Proof.
  unfold _async_execute_operation. intros Hrun.
  apply with_connection_inv in Hrun
    as [(e & -> & _ & Hevs)|(p & s & w1 & evs1 & _ & Hb & -> & _)].
  { left. by exists e. }
  apply with_cursor_inv in Hb
    as [(e & -> & _ & ->)|(s' & w2 & evs2 & _ & Hb & -> & _)].
  { right; left. by exists p, e. }
  right; right.
  apply bind_inv in Hb
    as [(id & w3 & sevs & bevs & Hs & Hk & ->)|[(e & Hs & ->)|[Hs ->]]];
    apply submit_and_wait_spec in Hs as [Hs _].
  - right. exists p, id, sevs, w3, w2, bevs.
    split; [done|]. split; [done|]. simpl. by rewrite <- !app_assoc.
  - left. exists p, (Raised e), evs2. split; [done|]. split; [done|].
    simpl. by rewrite <- !app_assoc.
  - left. exists p, OutOfFuel, evs2. split; [done|]. split; [done|].
    simpl. by rewrite !app_nil_r.
Qed.

Lemma snowflake_query_eq fuel q self params ct interval :
  snowflake_query fuel q self params ct interval
  = _async_execute_operation fuel self q params ct interval ∅
      (call fetchall EvFetchAll).
Proof. reflexivity. Qed.

Lemma closing_silent {A} (o : outcome A) (ev : event status) :
  ev = EvCursorClose ∨ ev = EvConnectionClose →
  suspensions (closing o ev) = 0 ∧ running_checks (closing o ev) = 0 ∧
  status_checks (closing o ev) = [].
Proof. by intros [-> | ->]; destruct o. Qed.

Lemma submit_trace_sleep_raised q p kw interval so pre1 secs e :
  submit_trace q p kw interval so (pre1 ++ [EvSleep secs (Raise e)]) →
  ∃ id pevs, pre1 = EvExecuteAsync q p kw (Ok id) :: pevs ∧
             Forall (λ ev, is_poll ev = true) pevs.
Proof.
  remember (pre1 ++ [EvSleep secs (Raise e)]) as evs eqn:Heq.
  destruct 1 as [e'|id e' pevs Hp|id pevs Hp|id e' pevs Hp|id pevs Hp].
  - by destruct pre1 as [|? [|]].
  - destruct pre1 as [|ev pre1]; simplify_eq/=.
    apply poll_trace_is_poll, Forall_app in Hp as [Hp _]. by exists id, pre1.
  - destruct pre1 as [|ev pre1]; simplify_eq/=.
    apply poll_trace_is_poll, Forall_app in Hp as [Hp _]. by exists id, pre1.
  - rewrite app_comm_cons in Heq. by apply app_inj_tail in Heq as [_ ?].
  - rewrite app_comm_cons in Heq. by apply app_inj_tail in Heq as [_ ?].
Qed.

Lemma fetch_silent evs :
  Forall (λ ev, is_fetch ev = true) evs →
  suspensions evs = 0 ∧ running_checks evs = 0 ∧ status_checks evs = [].
Proof.
  induction 1 as [|ev evs Hev _ (IH1 & IH2 & IH3)]; [done|].
  rewrite suspensions_cons, running_checks_cons, IH1, IH2.
  by destruct ev.
Qed.

(** Claim C3.  The poll loop of [_async_execute_operation], whatever the
    operation, the keyword arguments and the caller's block (which only
    fetches, as those of [fetch_one], [fetch_many] and [fetch_all] do), and
    that of [snowflake_query]: in every run the suspensions (calls of
    [asyncio.sleep]) are as many as the status checks that report a running
    query.  When the status checks answer running, running, succeeded, the
    trace is: connect, cursor, submission, check, sleep, check, sleep, check,
    and only then the loading of the results: exactly 2 suspensions, each of
    [interval_seconds], both before the results are fetched. *)
Theorem poll_suspensions fuel self op params ct interval :
  (∀ {A} kw (body : M A) w (o : outcome A) w' evs,
     (∀ w1 o1 w2 bevs, body w1 = (o1, w2, bevs) →
        Forall (λ ev, is_fetch ev = true) bevs) →
     _async_execute_operation fuel self op params ct interval kw body w
       = (o, w', evs) →
     suspensions evs = running_checks evs ∧
     ∀ s1 s2 s3,
       status_checks evs = [Ok s1; Ok s2; Ok s3] →
       is_still_running s1 = true → is_still_running s2 = true →
       is_still_running s3 = false →
       ∃ p id r tail,
         evs = [EvConnect p (Ok tt); EvCursor ct (Ok tt);
                EvExecuteAsync op params kw (Ok id);
                EvStatus id (Ok s1); EvSleep interval (Ok tt);
                EvStatus id (Ok s2); EvSleep interval (Ok tt);
                EvStatus id (Ok s3);
                EvGetResults id r] ++ tail ∧
         suspensions tail = 0 ∧ suspensions evs = 2) ∧
  (∀ w o w' evs,
     snowflake_query fuel op self params ct interval w = (o, w', evs) →
     suspensions evs = running_checks evs ∧
     ∀ s1 s2 s3,
       status_checks evs = [Ok s1; Ok s2; Ok s3] →
       is_still_running s1 = true → is_still_running s2 = true →
       is_still_running s3 = false →
       ∃ p id r tail,
         evs = [EvConnect p (Ok tt); EvCursor ct (Ok tt);
                EvExecuteAsync op params ∅ (Ok id);
                EvStatus id (Ok s1); EvSleep interval (Ok tt);
                EvStatus id (Ok s2); EvSleep interval (Ok tt);
                EvStatus id (Ok s3);
                EvGetResults id r] ++ tail ∧
         suspensions tail = 0 ∧ suspensions evs = 2).
Proof.
  assert (Hgen : ∀ {A} kw (body : M A) w (o : outcome A) w' evs,
     (∀ w1 o1 w2 bevs, body w1 = (o1, w2, bevs) →
        Forall (λ ev, is_fetch ev = true) bevs) →
     _async_execute_operation fuel self op params ct interval kw body w
       = (o, w', evs) →
     suspensions evs = running_checks evs ∧
     ∀ s1 s2 s3,
       status_checks evs = [Ok s1; Ok s2; Ok s3] →
       is_still_running s1 = true → is_still_running s2 = true →
       is_still_running s3 = false →
       ∃ p id r tail,
         evs = [EvConnect p (Ok tt); EvCursor ct (Ok tt);
                EvExecuteAsync op params kw (Ok id);
                EvStatus id (Ok s1); EvSleep interval (Ok tt);
                EvStatus id (Ok s2); EvSleep interval (Ok tt);
                EvStatus id (Ok s3);
                EvGetResults id r] ++ tail ∧
         suspensions tail = 0 ∧ suspensions evs = 2).
  { intros A kw body w o w' evs Hbody Hrun.
    destruct (closing_silent o EvCursorClose) as (Ha1 & Ha2 & Ha3); [by left|].
    destruct (closing_silent o EvConnectionClose) as (Hb1 & Hb2 & Hb3);
      [by right|].
    apply async_execute_operation_inv in Hrun
      as [(e & _ & [->|[p ->]])|[(p & e & _ & ->)
         |[(p & so & sevs & Hs & Hstop & ->)
          |(p & id & sevs & w1 & w2 & bevs & Hs & Hb & ->)]]];
      try (split; [done|]; by intros).
    - split.
      { rewrite !suspensions_cons, !running_checks_cons, !suspensions_app,
          !running_checks_app, Ha1, Ha2, Hb1, Hb2. simpl.
        by rewrite (submit_trace_balanced _ _ _ _ _ _ Hs). }
      intros s1 s2 s3 Hst H1 H2 H3. simpl in Hst.
      rewrite !status_checks_app, Ha3, Hb3, !app_nil_r in Hst.
      destruct Hs as [e'|id e' pevs Hp|id pevs Hp|id e' pevs Hp|id pevs Hp];
        simpl in Hst;
        rewrite ?status_checks_app, ?app_nil_r in Hst; simpl in Hst;
        rewrite ?app_nil_r in Hst;
        try done;
        destruct (poll_trace_three _ _ _ _ _ _ _ Hp Hst H3) as [? ->];
        try done.
      destruct o as [?|e''|]; [done| |done].
      exists p, id, (Raise e'), [EvCursorClose; EvConnectionClose].
      split; [done|]. split; [done|].
      by rewrite !suspensions_cons.
    - apply Hbody, fetch_silent in Hb as (Hf1 & Hf2 & Hf3).
      split.
      { rewrite !suspensions_cons, !running_checks_cons, !suspensions_app,
          !running_checks_app, Ha1, Ha2, Hb1, Hb2, Hf1, Hf2. simpl.
        by rewrite (submit_trace_balanced _ _ _ _ _ _ Hs). }
      intros s1 s2 s3 Hst H1 H2 H3. simpl in Hst.
      rewrite !status_checks_app, Ha3, Hb3, Hf3 in Hst.
      rewrite !app_nil_r in Hst.
      inversion Hs as [| | | |id' pevs Hp Heq]; subst; simpl in Hst.
      rewrite status_checks_app in Hst; simpl in Hst; rewrite app_nil_r in Hst.
      destruct (poll_trace_three _ _ _ _ _ _ _ Hp Hst H3) as [_ ->].
      exists p, id, (Ok tt),
        (bevs ++ closing o EvCursorClose ++ closing o EvConnectionClose).
      split; [simpl; by rewrite <- ?app_assoc|]. split.
      + by rewrite !suspensions_app, Ha1, Hb1, Hf1.
      + simpl. rewrite <- ?app_assoc. simpl.
        by rewrite !suspensions_cons, !suspensions_app, Ha1, Hb1, Hf1. }
  split; [exact Hgen|].
  intros w o w' evs. rewrite snowflake_query_eq. apply Hgen.
  intros w1 o1 w2 bevs Hb.
  apply call_inv in Hb as (r & s & _ & _ & _ & ->). by repeat constructor.
Qed.

(** Claim C8.  A cancellation delivered during a sleep of the poll loop of
    [_async_execute_operation] (the callers' blocks only fetch): the
    coroutine raises [CancelledError]; after the cancelled sleep nothing is
    called but the closing of the cursor and of the connection, so no status
    check follows; before it there are only the connection, the cursor, the
    submission and the poll loop, so nothing is ever fetched or loaded. *)
Theorem cancellation_during_sleep {A} fuel self op params ct interval kw
    (body : M A) w (o : outcome A) w' evs pre secs post :
  (∀ w1 o1 w2 bevs, body w1 = (o1, w2, bevs) →
                    Forall (λ ev, is_fetch ev = true) bevs) →
  _async_execute_operation fuel self op params ct interval kw body w
    = (o, w', evs) →
  evs = pre ++ EvSleep secs (Raise CancelledError) :: post →
  o = Raised CancelledError ∧
  post = [EvCursorClose; EvConnectionClose] ∧
  (∃ p id pevs,
     pre = EvConnect p (Ok tt) :: EvCursor ct (Ok tt) ::
           EvExecuteAsync op params kw (Ok id) :: pevs ∧
     Forall (λ ev, is_poll ev = true) pevs) ∧
  Forall (λ ev, is_fetch ev = false) evs.
Proof.
  intros Hbody Hrun Hevs.
  apply async_execute_operation_inv in Hrun
    as [(e & _ & [->|[p ->]])|[(p & e & _ & ->)
       |[(p & so & sevs & Hs & Hstop & Heq)
        |(p & id & sevs & w1 & w2 & bevs & Hs & Hb & Heq)]]].
  - by destruct pre.
  - by destruct pre as [|? [|]].
  - by destruct pre as [|? [|? [|? [|]]]].
  - pose proof (submit_trace_raises_last _ _ _ _ _ _ Hs)
      as [Hc|(pre1 & ev1 & e1 & -> & Hpre1 & He1 & ->)].
    { exfalso. eapply (clean_no_raise evs); [|exact Hevs|done].
      rewrite Heq. constructor; [done|]. constructor; [done|].
      apply clean_app. split; [done|]. apply clean_app.
      split; by apply closing_clean. }
    destruct o as [?|e|]; simpl in Hstop; [done| |done]. subst e1.
    simpl in Heq. rewrite <- app_assoc in Heq. simpl in Heq.
    assert (Heq' : (EvConnect p (Ok tt) :: EvCursor ct (Ok tt) :: pre1)
                   ++ ev1 :: [EvCursorClose; EvConnectionClose]
                   = pre ++ EvSleep secs (Raise CancelledError) :: post)
      by (simpl; congruence).
    destruct (raise_position
                (EvConnect p (Ok tt) :: EvCursor ct (Ok tt) :: pre1) ev1
                [EvCursorClose; EvConnectionClose]
                pre (EvSleep secs (Raise CancelledError)) post
                e CancelledError
                ltac:(solve_raises) ltac:(solve_raises) He1 eq_refl Heq')
      as (-> & <- & ->).
    simpl in He1. injection He1 as <-.
    destruct (submit_trace_sleep_raised _ _ _ _ _ _ _ _ Hs)
      as (id & pevs & -> & Hpoll).
    split; [done|]. split; [done|]. split; [by exists p, id, pevs|].
    rewrite Hevs. repeat (apply Forall_cons; split; [done|]).
    apply Forall_app. split; [by apply is_poll_not_fetch|].
    by repeat constructor.
  - exfalso.
    assert (Hin : EvSleep secs (Raise CancelledError) ∈ evs).
    { rewrite Hevs. apply elem_of_app. right. by left. }
    rewrite Heq in Hin.
    apply elem_of_cons in Hin as [?|Hin]; [done|].
    apply elem_of_cons in Hin as [?|Hin]; [done|].
    rewrite !elem_of_app in Hin. destruct Hin as [[Hin|Hin]|[Hin|Hin]].
    + eapply (clean_elem_of sevs); [|exact Hin|done].
      by eapply raises_last_Done, submit_trace_raises_last.
    + specialize (Hbody _ _ _ _ Hb). rewrite Forall_forall in Hbody.
      by specialize (Hbody _ Hin).
    + destruct o; [apply list_elem_of_singleton in Hin
                  |apply list_elem_of_singleton in Hin
                  |apply elem_of_nil in Hin]; done.
    + destruct o; [apply list_elem_of_singleton in Hin
                  |apply list_elem_of_singleton in Hin
                  |apply elem_of_nil in Hin]; done.
Qed.

(** Claim C10.  [fetch_many] called without [limit]: every [fetchmany] of
    the run is called with [size=5], what the method returns is what that
    call returned, and, [fetchmany] returning at most [size] rows, it has at
    most 5 rows. *)
Theorem fetch_many_default_limit fuel self op params ct interval kw
    w o w' evs :
  fetch_many fuel self op params None ct interval kw w = (o, w', evs) →
  (∀ size r, EvFetchMany size r ∈ evs → size = Some 5%Z) ∧
  (∀ rs, o = Done rs →
     EvFetchMany (Some 5%Z) (Ok rs) ∈ evs ∧
     (fetchmany_bounded → (length rs ≤ 5)%nat)).
Proof.
  unfold fetch_many. simpl. intros Hrun.
  apply async_execute_operation_inv in Hrun
    as [(e & -> & [->|[p ->]])|[(p & e & -> & ->)
       |[(p & so & sevs & Hs & Hstop & ->)
        |(p & id & sevs & w1 & w2 & bevs & Hs & Hb & ->)]]].
  - split; [|done]. intros size r Hin. by apply elem_of_nil in Hin.
  - split; [|done]. intros size r Hin.
    by apply list_elem_of_singleton in Hin.
  - split; [|done]. intros size r Hin.
    repeat (apply elem_of_cons in Hin as [?|Hin]; [done|]).
    by apply elem_of_nil in Hin.
  - pose proof (submit_trace_not_fetch _ _ _ _ _ _ Hs) as Hnf.
    rewrite Forall_forall in Hnf. split.
    + intros size r Hin.
      repeat (apply elem_of_cons in Hin as [?|Hin]; [done|]).
      rewrite !elem_of_app in Hin. destruct Hin as [Hin|[Hin|Hin]].
      * by specialize (Hnf _ Hin).
      * destruct o; [apply list_elem_of_singleton in Hin
                    |apply list_elem_of_singleton in Hin
                    |apply elem_of_nil in Hin]; done.
      * destruct o; [apply list_elem_of_singleton in Hin
                    |apply list_elem_of_singleton in Hin
                    |apply elem_of_nil in Hin]; done.
    + intros rs ->. by destruct so.
  - pose proof (submit_trace_not_fetch _ _ _ _ _ _ Hs) as Hnf.
    rewrite Forall_forall in Hnf.
    apply call_inv in Hb as (r & s & Hr & -> & _ & ->). split.
    + intros size r' Hin.
      repeat (apply elem_of_cons in Hin as [?|Hin]; [done|]).
      rewrite !elem_of_app in Hin. destruct Hin as [[Hin|Hin]|[Hin|Hin]].
      * by specialize (Hnf _ Hin).
      * apply list_elem_of_singleton in Hin. by injection Hin as <- _.
      * destruct r; simpl in Hin; apply list_elem_of_singleton in Hin; done.
      * destruct r; simpl in Hin; apply list_elem_of_singleton in Hin; done.
    + intros rs Hrs. destruct r as [rs'|]; [|done]. injection Hrs as ->.
      split.
      * right; right. rewrite !elem_of_app. left; right. by left.
      * intros Hbound. by apply (Hbound 5%Z) in Hr.
Qed.

End Async.

(** ** The scripted driver at work *)

Lemma mock_cooperative : cooperative Mock.good Mock.budget.
Proof.
  split.
  - intros p s Hs. by exists s.
  - intros c s Hs. by exists s.
  - intros q p kw s Hs. by exists q, s.
  - intros id [sc c ld] [Hc Hsc]. simpl in *. unfold Mock.m_status. simpl.
    destruct sc as [|r sc]; simpl.
    + exists Mock.SUCCESS, (Mock.MState [] c ld). by repeat split.
    + inversion Hsc as [|? ? [st ->] Hsc']; subst.
      eexists st, _. split; [reflexivity|].
      repeat split; try done. intros _. unfold Mock.budget. simpl. lia.
  - intros secs [sc c ld] [Hc Hsc]. simpl in *. subst c.
    exists (Mock.MState sc None ld). by repeat split.
  - intros id [sc c ld] [Hc Hsc]. simpl in *.
    exists (Mock.MState sc c (Some id)). by repeat split.
  - intros s Hs. by exists (Mock.current s), s.
Qed.

Lemma mock_fetchmany_bounded : @fetchmany_bounded _ _ Mock.driver.
Proof.
  intros n s r s'. simpl. unfold Mock.m_fetchmany. simpl. intros [= <- _].
  rewrite length_take. lia.
Qed.

Lemma multiquery_transaction_results_witness :
  let w := Mock.start [Ok Mock.RUNNING] None ["SELECT 1"; "SELECT 2"] in
  (∃ res w' evs,
     snowflake_multiquery 3 0 Mock.connector None SnowflakeCursor true false 1 w
       = (Done res, w', evs) ∧
     length res = 2) ∧
  (∃ fuel0 res w' evs, ∀ fuel, (fuel0 ≤ fuel)%nat →
     snowflake_multiquery fuel 0 Mock.connector None SnowflakeCursor true false 1 w
       = (Done res, w', evs)).
Proof.
  intros w.
  destruct (multiquery_transaction_results 0 Mock.connector None
              SnowflakeCursor false 1 w ["SELECT 1"; "SELECT 2"])
    as [H1 H2]; [vm_compute; reflexivity|].
  split.
  - destruct (snowflake_multiquery 3 0 Mock.connector None SnowflakeCursor
                true false 1 w) as [[[res|e|] w'] evs] eqn:Hrun.
    + exists res, w', evs. split; [reflexivity|].
      destruct (H1 _ _ _ _ Hrun) as (rb & rs & rc & _ & _ & _ & Hlen).
      exact Hlen.
    + vm_compute in Hrun. discriminate Hrun.
    + vm_compute in Hrun. discriminate Hrun.
  - apply (H2 Mock.good Mock.budget mock_cooperative).
    + split; [reflexivity|]. repeat constructor. by eexists.
    + vm_compute. reflexivity.
Defined.

Lemma multiquery_status_error_aborts_witness :
  let w := Mock.start [Ok Mock.SUCCESS; Raise StatusError] None
             ["INSERT 1"; "INSERT 2"; "INSERT 3"] in
  ∃ o w' evs,
    snowflake_multiquery 3 0 Mock.connector None SnowflakeCursor false false 1 w
      = (o, w', evs) ∧
    o = Raised StatusError ∧ submitted evs = ["INSERT 1"; "INSERT 2"].
Proof.
  intros w.
  destruct (snowflake_multiquery 3 0 Mock.connector None SnowflakeCursor
              false false 1 w) as [[o w'] evs] eqn:Hrun.
  exists o, w', evs. split; [reflexivity|].
  assert (Hevs : ∃ p,
    evs = [EvConnect p (Ok tt); EvCursor SnowflakeCursor (Ok tt);
           EvExecuteAsync "INSERT 1" None ∅ (Ok "INSERT 1");
           EvStatus "INSERT 1" (Ok Mock.SUCCESS);
           EvGetResults "INSERT 1" (Ok tt);
           EvFetchAll (Ok (Mock.table "INSERT 1"));
           EvExecuteAsync "INSERT 2" None ∅ (Ok "INSERT 2")]
          ++ EvStatus "INSERT 2" (Raise StatusError)
          :: [EvCursorClose; EvConnectionClose]).
  { pose proof Hrun as Hrun'. vm_compute in Hrun'.
    injection Hrun' as _ _ <-. eexists. vm_compute. reflexivity. }
  destruct Hevs as [p Hevs].
  destruct (multiquery_status_error_aborts 3 0 Mock.connector None
              SnowflakeCursor false false 1 w
              "INSERT 1" "INSERT 2" "INSERT 3" o w' evs _ _ _
              ltac:(vm_compute; reflexivity) Hrun Hevs eq_refl)
    as (Ho & _ & Hsub).
  split; [exact Ho | exact Hsub].
Defined.



Lemma poll_suspensions_witness :
  let w := Mock.start [Ok Mock.RUNNING; Ok Mock.RUNNING; Ok Mock.SUCCESS]
             None [] in
  let kw : kwargs := {[ "timeout" := VInt 30 ]} in
  (∃ o w' evs,
     fetch_one 3 Mock.connector "SELECT 1" None DictCursor 2 kw w
       = (o, w', evs) ∧
     suspensions evs = 2 ∧ running_checks evs = 2) ∧
  (∃ o w' evs,
     snowflake_query 3 "SELECT 1" Mock.connector None DictCursor 2 w
       = (o, w', evs) ∧
     suspensions evs = 2 ∧ running_checks evs = 2).
Proof.
  intros w kw.
  destruct (poll_suspensions 3 Mock.connector "SELECT 1" None DictCursor 2)
    as [Hgen Hq].
  split.
  - destruct (fetch_one 3 Mock.connector "SELECT 1" None DictCursor 2 kw w)
      as [[o w'] evs] eqn:Hrun.
    exists o, w', evs. split; [reflexivity|].
    assert (Hst : status_checks evs
                  = [Ok Mock.RUNNING; Ok Mock.RUNNING; Ok Mock.SUCCESS]).
    { pose proof Hrun as Hrun'. vm_compute in Hrun'.
      injection Hrun' as _ _ <-. vm_compute. reflexivity. }
    assert (Hbody : ∀ (w1 : world Mock.mstate) (o1 : outcome (option row))
                      w2 bevs,
      call fetchone EvFetchOne w1 = (o1, w2, bevs) →
      Forall (λ ev : event Mock.mstatus, is_fetch ev = true) bevs).
    { intros w1 o1 w2 bevs Hb.
      apply call_inv in Hb as (r & s & _ & _ & _ & ->).
      repeat constructor. }
    destruct (Hgen _ kw (call fetchone EvFetchOne) w o w' evs Hbody Hrun)
      as [Hbal Hthree].
    destruct (Hthree _ _ _ Hst eq_refl eq_refl eq_refl)
      as (p & id & r & tail & _ & _ & H2).
    split; [exact H2|]. rewrite <- Hbal. exact H2.
  - destruct (snowflake_query 3 "SELECT 1" Mock.connector None DictCursor 2 w)
      as [[o w'] evs] eqn:Hrun.
    exists o, w', evs. split; [reflexivity|].
    assert (Hst : status_checks evs
                  = [Ok Mock.RUNNING; Ok Mock.RUNNING; Ok Mock.SUCCESS]).
    { pose proof Hrun as Hrun'. vm_compute in Hrun'.
      injection Hrun' as _ _ <-. vm_compute. reflexivity. }
    destruct (Hq w o w' evs Hrun) as [Hbal Hthree].
    destruct (Hthree _ _ _ Hst eq_refl eq_refl eq_refl)
      as (p & id & r & tail & _ & _ & H2).
    split; [exact H2|]. rewrite <- Hbal. exact H2.
Defined.

Lemma cancellation_during_sleep_witness :
  let w := Mock.start [Ok Mock.RUNNING; Ok Mock.RUNNING; Ok Mock.SUCCESS]
             (Some 1) [] in
  ∃ o w' evs,
    fetch_all 5 Mock.connector "SELECT 1" None SnowflakeCursor 1 ∅ w
      = (o, w', evs) ∧
    o = Raised CancelledError ∧
    Forall (λ ev, is_fetch ev = false) evs ∧
    status_checks evs = [Ok Mock.RUNNING; Ok Mock.RUNNING].
Proof.
  intros w.
  destruct (fetch_all 5 Mock.connector "SELECT 1" None SnowflakeCursor 1 ∅ w)
    as [[o w'] evs] eqn:Hrun.
  exists o, w', evs. split; [reflexivity|].
  assert (Hevs : ∃ p,
    evs = [EvConnect p (Ok tt); EvCursor SnowflakeCursor (Ok tt);
           EvExecuteAsync "SELECT 1" None ∅ (Ok "SELECT 1");
           EvStatus "SELECT 1" (Ok Mock.RUNNING); EvSleep 1 (Ok tt);
           EvStatus "SELECT 1" (Ok Mock.RUNNING)]
          ++ EvSleep 1 (Raise CancelledError)
          :: [EvCursorClose; EvConnectionClose]).
  { pose proof Hrun as Hrun'. vm_compute in Hrun'.
    injection Hrun' as _ _ <-. eexists. vm_compute. reflexivity. }
  destruct Hevs as [p Hevs].
  assert (Hbody : ∀ (w1 : world Mock.mstate) (o1 : outcome rows) w2 bevs,
    call fetchall EvFetchAll w1 = (o1, w2, bevs) →
    Forall (λ ev : event Mock.mstatus, is_fetch ev = true) bevs).
  { intros w1 o1 w2 bevs Hb.
    apply call_inv in Hb as (r & s & _ & _ & _ & ->). by repeat constructor. }
  destruct (cancellation_during_sleep 5 Mock.connector "SELECT 1" None
              SnowflakeCursor 1 ∅ (call fetchall EvFetchAll)
              w o w' evs _ _ _ Hbody Hrun Hevs)
    as (Ho & _ & _ & Hnf).
  split; [exact Ho|]. split; [exact Hnf|].
  rewrite Hevs. reflexivity.
Defined.

Lemma fetch_many_default_limit_witness :
  let w := Mock.start [Ok Mock.RUNNING] None [] in
  ∃ rs w' evs,
    fetch_many 3 Mock.connector "SELECT 1" None None SnowflakeCursor 1 ∅ w
      = (Done rs, w', evs) ∧
    (length rs ≤ 5)%nat ∧ rs = take 5 (Mock.table "SELECT 1").
Proof.
  intros w.
  destruct (fetch_many 3 Mock.connector "SELECT 1" None None SnowflakeCursor
              1 ∅ w) as [[[rs|e|] w'] evs] eqn:Hrun.
  - exists rs, w', evs. split; [reflexivity|].
    destruct (fetch_many_default_limit 3 Mock.connector "SELECT 1" None
                SnowflakeCursor 1 ∅ w _ w' evs Hrun) as [_ Hdone].
    destruct (Hdone rs eq_refl) as [_ Hlen].
    split; [exact (Hlen mock_fetchmany_bounded)|].
    vm_compute in Hrun. by injection Hrun as <- _ _.
  - vm_compute in Hrun. discriminate Hrun.
  - vm_compute in Hrun. discriminate Hrun.
Defined.

(** ** More on the connection configurator *)

Section ConfigExtras.
Implicit Types (m : gmap string pyval) (k j : string) (v : pyval).

(** The three rounds of the loop of lines 68-70 together. *)
Lemma reveal_chain m0 m1 m2 m3 :
  reveal "password" m0 = Ok m1 → reveal "private_key" m1 = Ok m2 →
  reveal "token" m2 = Ok m3 →
  (∀ j, j ∉ secret_fields → m3 !! j = m0 !! j) ∧
  (∀ k, k ∈ secret_fields →
     match m0 !! k with
     | Some v0 => ∃ v', get_secret_value v0 = Ok v' ∧ m3 !! k = Some v'
     | None => m3 !! k = None
     end).
Proof.
  intros H1 H2 H3. split.
  - intros j Hj.
    rewrite (reveal_lookup_ne _ _ _ _ H3), (reveal_lookup_ne _ _ _ _ H2),
      (reveal_lookup_ne _ _ _ _ H1); [done|..];
      intros ->; apply Hj; unfold secret_fields; rewrite !elem_of_cons; auto.
  - intros k. unfold secret_fields. rewrite !elem_of_cons, elem_of_nil.
    intros [->|[->|[->|[]]]].
    + rewrite (reveal_lookup_ne _ _ _ _ H3), (reveal_lookup_ne _ _ _ _ H2)
        by done.
      exact (reveal_lookup_eq _ _ _ H1).
    + rewrite (reveal_lookup_ne _ _ _ _ H3) by done.
      rewrite <- (reveal_lookup_ne _ "private_key" _ _ H1) by done.
      exact (reveal_lookup_eq _ _ _ H2).
    + rewrite <- (reveal_lookup_ne _ "token" _ _ H1) by done.
      rewrite <- (reveal_lookup_ne _ "token" _ _ H2) by done.
      exact (reveal_lookup_eq _ _ _ H3).
Qed.

Lemma get_secret_value_plain v v' :
  get_secret_value v = Ok v' → is_secret v' = false.
Proof. destruct v; simpl; intros [=]; by subst. Qed.

(** X1.  A field of the credentials that is neither a secret nor touched by
    the authenticator substitution reaches the returned mapping unchanged,
    also when the connector has a value of its own under that key: the
    entries of [credentials.dict()] win over [database], [warehouse],
    [schema] and [application]. *)
Theorem connect_params_plain_field self m k v :
  _get_connect_params self = Ok m →
  k ∉ secret_fields →
  dict (credentials self) !! "authenticator" ≠ Some (VStr "okta_endpoint")
    ∨ (k ≠ "authenticator" ∧ k ≠ "okta_endpoint") →
  dict (credentials self) !! k = Some v → v ≠ VNone →
  m !! k = Some v.
Proof.
  intros Hm Hk Hauth Hv Hne.
  destruct (get_connect_params_inv _ _ Hm)
    as (m1 & m2 & m3 & m4 & H1 & H2 & H3 & H4 & ->).
  destruct (reveal_chain _ _ _ _ H1 H2 H3) as [Hplain _].
  assert (HF : filter_unset (merged_params self) !! k = Some v).
  { rewrite filter_unset_lookup. unfold merged_params.
    rewrite (lookup_union_Some_l _ _ _ _ Hv). by destruct v. }
  assert (H4k : m4 !! k = Some v).
  { revert H4. unfold set_authenticator. case_decide as Hdec.
    - destruct Hauth as [Hauth|[Ha Ho]].
      + exfalso. apply Hauth.
        rewrite Hplain, filter_unset_lookup in Hdec
          by (unfold secret_fields; rewrite !elem_of_cons, elem_of_nil;
              naive_solver).
        unfold merged_params in Hdec. rewrite lookup_union in Hdec.
        rewrite base_params_None in Hdec
          by (rewrite !elem_of_cons, elem_of_nil; naive_solver).
        by destruct (dict (credentials self) !! "authenticator") as [[]|].
      + destruct (m3 !! "okta_endpoint"); intros [= <-].
        by rewrite lookup_insert_ne, lookup_delete_ne, Hplain, HF.
    - intros [= <-]. by rewrite Hplain, HF. }
  rewrite set_private_key_lookup_ne; [done|..];
    intros ->; apply Hk; unfold secret_fields; rewrite !elem_of_cons; auto.
Qed.

(** X2.  What the credentials leave out comes from the connector: its
    database, warehouse and schema, and the application tag of the
    collection. *)
Theorem connect_params_connector_fields self m :
  _get_connect_params self = Ok m →
  (dict (credentials self) !! "database" = None →
   m !! "database" = Some (VStr (database self))) ∧
  (dict (credentials self) !! "warehouse" = None →
   m !! "warehouse" = Some (VStr (warehouse self))) ∧
  (dict (credentials self) !! "schema" = None →
   m !! "schema" = Some (VStr (schema_ self))) ∧
  (dict (credentials self) !! "application" = None →
   m !! "application" = Some (VStr "Prefect_Snowflake_Collection")).
Proof.
  intros Hm.
  destruct (get_connect_params_inv _ _ Hm)
    as (m1 & m2 & m3 & m4 & H1 & H2 & H3 & H4 & ->).
  destruct (reveal_chain _ _ _ _ H1 H2 H3) as [Hplain _].
  assert (Hk : ∀ k s,
    k ∈ ["database"; "warehouse"; "schema"; "application"] →
    base_params self !! k = Some (VStr s) →
    dict (credentials self) !! k = None →
    set_private_key (resolve_private_key (credentials self)) m4 !! k
      = Some (VStr s)).
  { intros k s Hin Hbase Hnone.
    assert ((k ∉ secret_fields) ∧ k ≠ "authenticator" ∧ k ≠ "okta_endpoint"
            ∧ k ≠ "private_key" ∧ k ≠ "password") as (Hs & Ha & Ho & Hpk & Hpw).
    { revert Hin. unfold secret_fields. rewrite !elem_of_cons, !elem_of_nil.
      naive_solver. }
    rewrite set_private_key_lookup_ne by done.
    rewrite (set_authenticator_lookup_ne _ _ _ H4 Ha Ho), Hplain by done.
    rewrite filter_unset_lookup. unfold merged_params.
    by rewrite lookup_union_r, Hbase. }
  repeat split; intros Hnone; apply Hk; try done;
    rewrite ?elem_of_cons; auto.
Qed.

(** X3.  Under the keys [password], [private_key] and [token] the returned
    mapping never holds a wrapped secret: what is there is the revealed
    value of the field, or the resolved key. *)
Theorem secrets_revealed self m :
  _get_connect_params self = Ok m →
  (∀ k v, k ∈ secret_fields → m !! k = Some v → is_secret v = false) ∧
  (∀ s, dict (credentials self) !! "token" = Some (VSecretStr s) →
        m !! "token" = Some (VStr s)) ∧
  (∀ s, dict (credentials self) !! "password" = Some (VSecretStr s) →
        resolve_private_key (credentials self) = None →
        m !! "password" = Some (VStr s)) ∧
  (∀ b, dict (credentials self) !! "private_key" = Some (VSecretBytes b) →
        resolve_private_key (credentials self) = None →
        m !! "private_key" = Some (VBytes b)).
Proof.
  intros Hm.
  destruct (get_connect_params_inv _ _ Hm)
    as (m1 & m2 & m3 & m4 & H1 & H2 & H3 & H4 & ->).
  destruct (reveal_chain _ _ _ _ H1 H2 H3) as [_ Hsec].
  assert (H4k : ∀ k, k ∈ secret_fields → m4 !! k = m3 !! k).
  { intros k Hk. destruct (secret_not_authenticator k Hk) as [Ha Ho].
    by apply set_authenticator_lookup_ne. }
  assert (Hval : ∀ k v0, k ∈ secret_fields →
    dict (credentials self) !! k = Some v0 → v0 ≠ VNone →
    ∃ v', get_secret_value v0 = Ok v' ∧ m4 !! k = Some v').
  { intros k v0 Hk Hd Hne. specialize (Hsec k Hk).
    rewrite filter_merged_lookup, Hd in Hsec by (by apply secret_not_base).
    rewrite H4k by done. by destruct v0. }
  split; [|split; [|split]].
  - intros k v Hk Hv. specialize (Hsec k Hk). rewrite <- H4k in Hsec by done.
    destruct (resolve_private_key (credentials self)) as [der|]; simpl in Hv.
    + destruct (decide (k = "password")) as [->|];
        [by rewrite lookup_delete_eq in Hv|].
      rewrite lookup_delete_ne in Hv by done.
      destruct (decide (k = "private_key")) as [->|].
      * rewrite lookup_insert_eq in Hv. by injection Hv as <-.
      * rewrite lookup_insert_ne in Hv by done.
        destruct (filter_unset (merged_params self) !! k);
          [|congruence].
        destruct Hsec as (v' & Hg & Hv'). rewrite Hv in Hv'.
        injection Hv' as ->. by eapply get_secret_value_plain.
    + destruct (filter_unset (merged_params self) !! k); [|congruence].
      destruct Hsec as (v' & Hg & Hv'). rewrite Hv in Hv'.
      injection Hv' as ->. by eapply get_secret_value_plain.
  - intros s Hd.
    destruct (Hval "token" _ ltac:(unfold secret_fields; rewrite !elem_of_cons; auto)
                Hd ltac:(done)) as (v' & [= <-] & Hv).
    by rewrite set_private_key_lookup_ne.
  - intros s Hd ->.
    by destruct (Hval "password" _
                   ltac:(unfold secret_fields; rewrite !elem_of_cons; auto)
                   Hd ltac:(done)) as (v' & [= <-] & Hv).
  - intros b Hd ->.
    by destruct (Hval "private_key" _
                   ltac:(unfold secret_fields; rewrite !elem_of_cons; auto)
                   Hd ltac:(done)) as (v' & [= <-] & Hv).
Qed.

(** X4.  The authenticator ["okta_endpoint"] without an endpoint (the field
    missing or [None]): [connect_params.pop("okta_endpoint")] raises
    [KeyError], whatever else the (well-typed) credentials hold. *)
Theorem okta_endpoint_missing_raises self :
  secrets_typed (dict (credentials self)) = true →
  dict (credentials self) !! "authenticator" = Some (VStr "okta_endpoint") →
  populated (dict (credentials self)) "okta_endpoint" = false →
  _get_connect_params self = Raise (KeyError "okta_endpoint").
Proof.
  intros Hty Hauth Hep.
  set (d := dict (credentials self)) in *.
  assert (Hsec : ∀ k, k ∈ secret_fields →
    match filter_unset (merged_params self) !! k with
    | Some v => is_secret v = true | None => True end).
  { intros k Hk. rewrite filter_merged_lookup by (by apply secret_not_base).
    pose proof (secrets_typed_lookup d k Hty Hk) as H. fold d.
    by destruct (d !! k) as [[]|]. }
  destruct (reveal_ok "password" (filter_unset (merged_params self)))
    as [m1 H1]; [apply Hsec; unfold secret_fields; rewrite !elem_of_cons; auto|].
  destruct (reveal_ok "private_key" m1) as [m2 H2].
  { rewrite (reveal_lookup_ne _ _ _ _ H1) by done.
    apply Hsec; unfold secret_fields; rewrite !elem_of_cons; auto. }
  destruct (reveal_ok "token" m2) as [m3 H3].
  { rewrite (reveal_lookup_ne _ _ _ _ H2), (reveal_lookup_ne _ _ _ _ H1) by done.
    apply Hsec; unfold secret_fields; rewrite !elem_of_cons; auto. }
  destruct (reveal_chain _ _ _ _ H1 H2 H3) as [Hplain _].
  assert (Hns : ∀ j, j = "authenticator" ∨ j = "okta_endpoint" →
    (j ∉ secret_fields) ∧
    (j ∉ ["database"; "warehouse"; "schema"; "application"])).
  { unfold secret_fields. intros j. rewrite !elem_of_cons, !elem_of_nil.
    naive_solver. }
  unfold _get_connect_params. rewrite H1; simpl. rewrite H2; simpl.
  rewrite H3; simpl. unfold set_authenticator.
  rewrite !Hplain, !filter_merged_lookup by (apply Hns; auto).
  fold d. rewrite Hauth. rewrite decide_True by done.
  unfold populated in Hep. by destruct (d !! "okta_endpoint") as [[]|].
Qed.

End ConfigExtras.

(** ** More on sessions and on the multi-query runner *)

Section SessionExtras.
Context {St status : Type} `{!Driver St status}.
Implicit Types (w : world St) (evs pre post : list (event status)).
Implicit Types (ev : event status) (e : exn).

Lemma count_events_app (f : event status → bool) evs1 evs2 :
  count_events f (evs1 ++ evs2) = count_events f evs1 + count_events f evs2.
Proof. unfold count_events. by rewrite filter_app, length_app. Qed.

Lemma count_events_cons (f : event status → bool) ev evs :
  count_events f (ev :: evs) = (if f ev then 1 else 0) + count_events f evs.
Proof.
  unfold count_events. rewrite filter_cons. destruct (f ev); by case_decide.
Qed.

Lemma count_events_none (f : event status → bool) evs :
  Forall (λ ev, f ev = false) evs → count_events f evs = 0.
Proof.
  induction 1 as [|ev evs Hev _ IH]; [done|].
  by rewrite count_events_cons, Hev, IH.
Qed.

Lemma poll_trace_polls interval id o evs :
  poll_trace interval id o evs → Forall (polls id interval) evs.
Proof. induction 1; repeat constructor; done. Qed.

Lemma polls_is_op id interval evs :
  Forall (polls id interval) evs → Forall (λ ev, is_op ev = true) evs.
Proof. intros H. eapply Forall_impl; [exact H|]. by intros []. Qed.

Lemma polls_submits_with id interval params evs :
  Forall (polls id interval) evs → Forall (submits_with params) evs.
Proof. intros H. eapply Forall_impl; [exact H|]. by intros []. Qed.

Lemma submit_trace_events q p kw interval o evs :
  submit_trace q p kw interval o evs →
  Forall (λ ev, is_op ev = true) evs ∧
  (kw = ∅ → Forall (submits_with p) evs).
Proof.
  destruct 1 as [e|id e pevs Hp|id pevs Hp|id e pevs Hp|id pevs Hp];
    try apply poll_trace_polls in Hp;
    (split; [|intros ->]);
    repeat first
      [ by apply Forall_nil
      | apply Forall_cons; split; [done|]
      | apply Forall_app; split
      | by apply (polls_is_op _ _ _ Hp)
      | by apply (polls_submits_with _ _ _ _ Hp) ].
Qed.

(** What the loop of [snowflake_multiquery] calls: only operations on the
    open cursor, every submission with the caller's [params]. *)
Lemma run_queries_events fuel qs params interval acc w o w' evs :
  run_queries fuel qs params interval acc w = (o, w', evs) →
  Forall (λ ev, is_op ev = true) evs ∧ Forall (submits_with params) evs.
Proof.
  revert acc w o w' evs.
  induction qs as [|q qs IH]; intros acc w o w' evs; simpl.
  { intros [= <- <- <-]. by split. }
  intros [(id & w1 & evs1 & evs2 & Hs & Hk & ->)
         |[(e & Hs & ->)|[Hs ->]]]%bind_inv;
    apply submit_and_wait_spec in Hs as [Hs _];
    apply submit_trace_events in Hs as [Hop Hpar];
    specialize (Hpar eq_refl); [|done..].
  apply bind_inv in Hk
    as [(r & w2 & evs3 & evs4 & Hf & Hk & ->)|[(e & Hf & ->)|[Hf ->]]];
    apply call_inv in Hf as (r' & s & Hr & Ho & -> & ->);
    destruct r' as [r''|e']; simplify_eq/=.
  - apply IH in Hk as [Hop' Hpar'].
    split; (apply Forall_app; split; [done|]; by constructor).
  - split; (apply Forall_app; split; [done|]; by repeat constructor).
Qed.

Lemma is_op_clean_kinds evs :
  Forall (λ ev, is_op ev = true) evs →
  Forall (λ ev, is_connect ev = false) evs ∧
  Forall (λ ev, is_cursor ev = false) evs ∧
  Forall (λ ev, is_opened_connection ev = false) evs ∧
  Forall (λ ev, is_opened_cursor ev = false) evs ∧
  Forall (λ ev, is_cursor_close ev = false) evs ∧
  Forall (λ ev, is_connection_close ev = false) evs.
Proof.
  intros H. repeat split; (eapply Forall_impl; [exact H|]; by intros []).
Qed.

(** X5.  [get_connection]: when the parameters cannot be resolved the driver
    is not called at all; otherwise [connect] is called once, with the
    resolved parameters and [autocommit] set to the argument, which replaces
    an [autocommit] entry that came from the credentials. *)
Theorem get_connection_autocommit self autocommit w o w' evs :
  get_connection self autocommit w = (o, w', evs) →
  (∀ e, _get_connect_params self = Raise e →
        o = Raised e ∧ w' = w ∧ evs = []) ∧
  (∀ p0, _get_connect_params self = Ok p0 →
     ∃ p r, evs = [EvConnect p r] ∧ o = outcome_of r ∧
            p !! "autocommit" = Some (VBool autocommit) ∧
            ∀ k, k ≠ "autocommit" → p !! k = p0 !! k).
Proof.
  intros [(e' & Hp & -> & -> & ->)
         |(p & r & s & Hp & Hr & -> & -> & ->)]%get_connection_inv.
  - split; [intros e; rewrite Hp; by intros [= <-]|]. intros p0. by rewrite Hp.
  - split; [intros e; by rewrite Hp|]. intros p0. rewrite Hp. intros [= ->].
    eexists _, r. split; [done|]. split; [done|].
    split; [by rewrite lookup_insert_eq|].
    intros k Hk. by rewrite lookup_insert_ne.
Qed.

Lemma with_connection_config_error {A} self (body : M A) w e :
  _get_connect_params self = Raise e →
  with_connection self body w = (Raised e, w, []).
Proof.
  intros Hp. unfold with_connection, get_connection, bind, lift.
  by rewrite Hp.
Qed.

(** X6.  When the connection parameters cannot be resolved, every method and
    task raises that error before anything is called on the driver: the
    trace is empty and the state, the caller's list included, is as it
    was. *)
Theorem config_error_raised_first self e w :
  _get_connect_params self = Raise e →
  (∀ fuel op params ct interval kw,
     fetch_one fuel self op params ct interval kw w = (Raised e, w, []) ∧
     fetch_all fuel self op params ct interval kw w = (Raised e, w, [])) ∧
  (∀ fuel op params limit ct interval kw,
     fetch_many fuel self op params limit ct interval kw w
       = (Raised e, w, [])) ∧
  (∀ op params ct kw,
     connector_execute self op params ct kw w = (Raised e, w, [])) ∧
  (∀ fuel q params ct interval,
     snowflake_query fuel q self params ct interval w = (Raised e, w, [])) ∧
  (∀ fuel l params ct at_ rtcr interval,
     snowflake_multiquery fuel l self params ct at_ rtcr interval w
       = (Raised e, w, [])) ∧
  (∀ q params ct,
     snowflake_query_sync q self params ct w = (Raised e, w, [])).
Proof.
  intros Hp. repeat split; intros;
    unfold fetch_one, fetch_all, fetch_many, _async_execute_operation,
      connector_execute, snowflake_query, snowflake_multiquery,
      snowflake_query_sync;
    try (by apply with_connection_config_error).
  unfold bind at 1. by rewrite (with_connection_config_error _ _ _ e).
Qed.

End SessionExtras.

Section MultiqueryExtras.
Context {St status : Type} `{!Driver St status}.
Implicit Types (w : world St) (evs pre post : list (event status)).
Implicit Types (ev : event status) (e : exn).

Lemma elem_of_closing {A} (o : outcome A) ev ev' :
  ev' ∈ closing o ev → ev' = ev ∧ o ≠ OutOfFuel.
Proof.
  destruct o; simpl; intros Hin;
    [apply list_elem_of_singleton in Hin..|by apply elem_of_nil in Hin]; done.
Qed.

Lemma closing_all {A} (o : outcome A) ev (P : event status → Prop) :
  P ev → Forall P (closing o ev).
Proof. intros HP. destruct o; by repeat constructor. Qed.

Lemma submitted_closing {A} (o : outcome A) :
  submitted (closing o (EvCursorClose : event status)
             ++ closing o EvConnectionClose) = [].
Proof. by destruct o. Qed.

(** X7.  When the connection cannot be opened, [snowflake_multiquery] raises
    the error of [connect]; that call is the whole trace (nothing was opened,
    so nothing is closed) and the caller's list is left as it was, also with
    [as_transaction]. *)
Theorem multiquery_connection_failure fuel l self params ct (at_ rtcr : bool)
    interval w ops o w' evs p e :
  heap w !! l = Some ops →
  snowflake_multiquery fuel l self params ct at_ rtcr interval w = (o, w', evs) →
  EvConnect p (Raise e) ∈ evs →
  o = Raised e ∧ evs = [EvConnect p (Raise e)] ∧ heap w' = heap w.
Proof.
  intros Hl Hrun Hin.
  apply (snowflake_multiquery_inv _ _ _ _ _ _ _ _ _ _ _ _ _ Hl) in Hrun
    as [(e' & -> & Hh & [->|[p' ->]])|[(p' & e' & _ & _ & ->)
       |(p' & o1 & w1 & w2 & evs1 & Hq & _ & -> & _)]].
  - by apply elem_of_nil in Hin.
  - apply list_elem_of_singleton in Hin. by injection Hin as -> ->.
  - repeat (apply elem_of_cons in Hin as [?|Hin]; [done|]).
    by apply elem_of_nil in Hin.
  - exfalso.
    repeat (apply elem_of_cons in Hin as [?|Hin]; [done|]).
    rewrite !elem_of_app in Hin. destruct Hin as [Hin|[Hin|Hin]].
    + apply run_queries_events in Hq as [Hop _].
      rewrite Forall_forall in Hop. by specialize (Hop _ Hin).
    + by apply elem_of_closing in Hin as [? _].
    + by apply elem_of_closing in Hin as [? _].
Qed.

(** X8.  One session for the whole list: whatever the number of queries and
    however the run ends, [snowflake_multiquery] calls [connect] at most once
    and [connection.cursor] at most once. *)
Theorem multiquery_one_session fuel l self params ct (at_ rtcr : bool)
    interval w ops o w' evs :
  heap w !! l = Some ops →
  snowflake_multiquery fuel l self params ct at_ rtcr interval w = (o, w', evs) →
  (count_events is_connect evs ≤ 1)%nat ∧ (count_events is_cursor evs ≤ 1)%nat.
Proof.
  intros Hl Hrun.
  apply (snowflake_multiquery_inv _ _ _ _ _ _ _ _ _ _ _ _ _ Hl) in Hrun
    as [(e' & -> & Hh & [->|[p' ->]])|[(p' & e' & _ & _ & ->)
       |(p' & o1 & w1 & w2 & evs1 & Hq & _ & -> & _)]];
    try (split; vm_compute; lia).
  apply run_queries_events in Hq as [Hop _].
  apply is_op_clean_kinds in Hop as (Hc & Hcu & _).
  rewrite !count_events_cons, !count_events_app. simpl.
  rewrite !(count_events_none _ evs1) by done.
  rewrite !(count_events_none _ (closing _ _)) by (by apply closing_all).
  lia.
Qed.

(** X9.  Release on every exit path: when [snowflake_multiquery] returns or
    raises, the cursor and the connection have been closed as often as they
    were opened, and if the cursor was opened the last two calls are its
    closing and then that of the connection. *)
Theorem multiquery_releases fuel l self params ct (at_ rtcr : bool)
    interval w ops o w' evs :
  heap w !! l = Some ops →
  snowflake_multiquery fuel l self params ct at_ rtcr interval w = (o, w', evs) →
  o ≠ OutOfFuel →
  count_events is_cursor_close evs = count_events is_opened_cursor evs ∧
  count_events is_connection_close evs
    = count_events is_opened_connection evs ∧
  (EvCursor ct (Ok tt) ∈ evs →
   ∃ pre, evs = pre ++ [EvCursorClose; EvConnectionClose]).
Proof.
  intros Hl Hrun Ho.
  apply (snowflake_multiquery_inv _ _ _ _ _ _ _ _ _ _ _ _ _ Hl) in Hrun
    as [(e' & -> & Hh & [->|[p' ->]])|[(p' & e' & _ & _ & ->)
       |(p' & o1 & w1 & w2 & evs1 & Hq & _ & -> & ->)]].
  - split; [done|]. split; [done|]. intros Hin. by apply elem_of_nil in Hin.
  - split; [done|]. split; [done|]. intros Hin.
    by apply list_elem_of_singleton in Hin.
  - split; [done|]. split; [done|]. intros Hin.
    repeat (apply elem_of_cons in Hin as [?|Hin]; [done|]).
    by apply elem_of_nil in Hin.
  - apply run_queries_events in Hq as [Hop _].
    apply is_op_clean_kinds in Hop as (_ & _ & Hoc & Hocu & Hcc & Hxc).
    assert (closing o1 (EvCursorClose : event status) = [EvCursorClose] ∧
            closing o1 (EvConnectionClose : event status) = [EvConnectionClose])
      as [-> ->] by (by destruct o1).
    rewrite !count_events_cons, !count_events_app. simpl.
    rewrite !(count_events_none _ evs1) by done.
    split; [done|]. split; [done|]. intros _.
    by exists (EvConnect p' (Ok tt) :: EvCursor ct (Ok tt) :: evs1).
Qed.

(** X10.  No retry: in [snowflake_multiquery] the first call that raises is
    the last one but for the releases.  The task raises the same exception,
    no call before it had raised, and what follows is exactly what was open:
    nothing after [connect], the connection after [cursor], the cursor and
    then the connection after any call on the cursor or a sleep. *)
Theorem multiquery_first_error_aborts fuel l self params ct (at_ rtcr : bool)
    interval w ops o w' evs pre ev post e :
  heap w !! l = Some ops →
  snowflake_multiquery fuel l self params ct at_ rtcr interval w = (o, w', evs) →
  evs = pre ++ ev :: post → ev_exn ev = Some e →
  o = Raised e ∧ clean pre ∧ post = cleanup_after ev.
Proof.
  intros Hl Hrun Hevs He.
  apply (snowflake_multiquery_inv _ _ _ _ _ _ _ _ _ _ _ _ _ Hl) in Hrun
    as [(e' & -> & Hh & [->|[p' ->]])|[(p' & e' & -> & _ & ->)
       |(p' & o1 & w1 & w2 & evs1 & Hq & _ & Hevs1 & Ho)]].
  - by destruct pre.
  - destruct pre as [|? [|]]; simplify_eq/=. by repeat split; constructor.
  - destruct pre as [|? [|? [|? [|]]]]; simplify_eq/=.
    split; [done|]. split; [by repeat constructor|done].
  - pose proof (run_queries_events _ _ _ _ _ _ _ _ _ Hq) as [Hop _].
    apply (run_queries_spec _ _ _ _ _ _ _ _ _ None) in Hq
      as (_ & Hrl & _).
    destruct Hrl as [Hc|(pre1 & ev1 & e1 & -> & Hpre1 & He1 & ->)].
    { exfalso. eapply (clean_no_raise evs); [|exact Hevs|done].
      rewrite Hevs1. constructor; [done|]. constructor; [done|].
      apply clean_app. split; [done|]. apply clean_app.
      split; by apply closing_clean. }
    simpl in Hevs1. rewrite <- app_assoc in Hevs1. simpl in Hevs1.
    assert (Heq : (EvConnect p' (Ok tt) :: EvCursor ct (Ok tt) :: pre1)
                  ++ ev1 :: [EvCursorClose; EvConnectionClose]
                  = pre ++ ev :: post)
      by (simpl; congruence).
    destruct (raise_position
                (EvConnect p' (Ok tt) :: EvCursor ct (Ok tt) :: pre1) ev1
                [EvCursorClose; EvConnectionClose] pre ev post e1 e
                ltac:(solve_raises) ltac:(solve_raises) He1 He Heq)
      as (-> & -> & ->).
    split; [congruence|]. split; [solve_raises|].
    apply Forall_app in Hop as [_ Hop]. inversion Hop as [|? ? Hev1 _]; subst.
    by destruct ev1.
Qed.

(** X11.  Without [as_transaction] the caller's list is not changed, no
    statement is added, and what is returned is one result set per query in
    the order of the list, whatever [return_transaction_control_results]. *)
Theorem multiquery_no_transaction fuel l self params ct (rtcr : bool)
    interval w ops o w' evs :
  heap w !! l = Some ops →
  snowflake_multiquery fuel l self params ct false rtcr interval w
    = (o, w', evs) →
  heap w' = heap w ∧
  ∀ res, o = Done res →
    length res = length ops ∧
    results_by_query None evs = zip ops res ∧
    submitted evs = ops.
Proof.
  intros Hl Hrun.
  apply (snowflake_multiquery_inv _ _ _ _ _ _ _ _ _ _ _ _ _ Hl) in Hrun
    as [(e' & -> & Hh & _)|[(p' & e' & -> & Hh & _)
       |(p' & o1 & w1 & w2 & evs1 & Hq & Hh & -> & ->)]];
    simpl in Hh; rewrite ?(insert_id _ _ _ Hl) in Hh; try done.
  split; [done|]. intros res Hres.
  destruct o1 as [res1| |]; [|done..]. injection Hres as <-.
  apply (run_queries_spec _ _ _ _ _ _ _ _ _ None) in Hq
    as (_ & _ & _ & _ & Hdone).
  destruct (Hdone res1 eq_refl) as (rs & -> & Hlen & Hz & Hsub).
  simpl. split; [done|].
  rewrite results_app_silent by (by repeat constructor).
  rewrite submitted_app, Hsub. simpl. by rewrite app_nil_r.
Qed.


(** X13.  Every statement of the run, the added BEGIN and COMMIT included,
    is submitted with the caller's [params] and without keyword
    arguments. *)
Theorem multiquery_params fuel l self params ct (at_ rtcr : bool)
    interval w ops o w' evs :
  heap w !! l = Some ops →
  snowflake_multiquery fuel l self params ct at_ rtcr interval w = (o, w', evs) →
  Forall (submits_with params) evs ∧
  ∃ k, submitted evs = take k (bracketed at_ ops).
Proof.
  intros Hl Hrun.
  apply (snowflake_multiquery_inv _ _ _ _ _ _ _ _ _ _ _ _ _ Hl) in Hrun
    as [(e' & -> & Hh & [->|[p' ->]])|[(p' & e' & _ & _ & ->)
       |(p' & o1 & w1 & w2 & evs1 & Hq & _ & -> & _)]];
    try (split; [by repeat constructor|by exists 0]).
  pose proof (run_queries_events _ _ _ _ _ _ _ _ _ Hq) as [_ Hpar].
  apply (run_queries_spec _ _ _ _ _ _ _ _ _ None) in Hq
    as (_ & _ & [k Hk] & _).
  split.
  - repeat (apply Forall_cons; split; [done|]).
    apply Forall_app. split; [done|].
    apply Forall_app. split; by apply closing_all.
  - exists k. simpl. by rewrite submitted_app, Hk, submitted_closing, app_nil_r.
Qed.

End MultiqueryExtras.

(** ** More on the synchronous and asynchronous executors *)

Section ExecutorExtras.
Context {St status : Type} `{!Driver St status}.
Implicit Types (w : world St) (evs pre post : list (event status)).
Implicit Types (ev : event status) (e : exn).

Lemma sync_blocks_inv {A} self ct (f : St → result A * St)
    (mk : result A → event status) {B} (k : A → M B)
    w (o : outcome B) w' evs :
  with_connection self (with_cursor ct (let! a := call f mk in k a)) w
    = (o, w', evs) →
  (∃ e, o = Raised e ∧ (evs = [] ∨ ∃ p, evs = [EvConnect p (Raise e)]))
  ∨ (∃ p e, o = Raised e ∧
            evs = [EvConnect p (Ok tt); EvCursor ct (Raise e); EvConnectionClose])
  ∨ (∃ p e, o = Raised e ∧
            evs = [EvConnect p (Ok tt); EvCursor ct (Ok tt); mk (Raise e);
                   EvCursorClose; EvConnectionClose])
  ∨ (∃ p a w1 w2 kevs,
       k a w1 = (o, w2, kevs) ∧
       evs = EvConnect p (Ok tt) :: EvCursor ct (Ok tt) :: mk (Ok a) ::
             kevs ++ closing o EvCursorClose ++ closing o EvConnectionClose).
Proof.
  intros Hrun.
  apply with_connection_inv in Hrun
    as [(e & -> & _ & Hevs)|(p & s & w1 & evs1 & _ & Hb & -> & _)].
  { left. by exists e. }
  apply with_cursor_inv in Hb
    as [(e & -> & _ & ->)|(s' & w2 & evs2 & _ & Hb & -> & _)].
  { right; left. by exists p, e. }
  right; right.
  apply bind_inv in Hb
    as [(a & w3 & evs3 & kevs & Hc & Hk & ->)|[(e & Hc & ->)|[Hc ->]]];
    apply call_inv in Hc as (r & s'' & _ & Ho & -> & ->);
    destruct r as [a'|e']; simplify_eq/=.
  - right. eexists p, a', _, w2, kevs. split; [done|].
    by rewrite <- !app_assoc.
  - left. by exists p, e'.
Qed.

(** X14.  [snowflake_query_sync] neither submits asynchronously nor polls
    nor sleeps, so it always ends; the rows it returns are those of the
    [fetchall] that follows [execute] on the same cursor; and when [execute]
    raises, nothing is fetched, cursor and connection are closed and the
    error is raised. *)
Theorem query_sync_trace q self params ct w o w' evs :
  snowflake_query_sync q self params ct w = (o, w', evs) →
  o ≠ OutOfFuel ∧
  suspensions evs = 0 ∧ status_checks evs = [] ∧ submitted evs = [] ∧
  (∀ rs, o = Done rs →
     ∃ p, evs = [EvConnect p (Ok tt); EvCursor ct (Ok tt);
                 EvExecute q params ∅ (Ok tt); EvFetchAll (Ok rs);
                 EvCursorClose; EvConnectionClose]) ∧
  (∀ e, EvExecute q params ∅ (Raise e) ∈ evs →
     ∃ p, o = Raised e ∧
          evs = [EvConnect p (Ok tt); EvCursor ct (Ok tt);
                 EvExecute q params ∅ (Raise e);
                 EvCursorClose; EvConnectionClose]).
Proof.
  unfold snowflake_query_sync.
  intros [(e & -> & [->|[p ->]])|[(p & e & -> & ->)|[(p & e & -> & ->)
         |(p & [] & w1 & w2 & kevs & Hk & ->)]]]%sync_blocks_inv;
    try (repeat split; try done; intros e' Hin;
         repeat (apply elem_of_cons in Hin as [Hin|Hin]; [done|]);
         by apply elem_of_nil in Hin).
  - repeat split; try done. intros e' Hin.
    repeat (apply elem_of_cons in Hin as [Hin|Hin];
            [try done; injection Hin as <-; by exists p|]).
    by apply elem_of_nil in Hin.
  - apply call_inv in Hk as (r & s & _ & -> & _ & ->).
    destruct r as [rs|e]; simpl.
    + repeat split; try done.
      * intros rs' [= <-]. by exists p.
      * intros e' Hin.
        repeat (apply elem_of_cons in Hin as [Hin|Hin]; [done|]).
        by apply elem_of_nil in Hin.
    + repeat split; try done. intros e' Hin.
      repeat (apply elem_of_cons in Hin as [Hin|Hin]; [done|]).
      by apply elem_of_nil in Hin.
Qed.

(** X15.  [SnowflakeConnector.execute] runs the operation with the caller's
    keyword arguments and fetches nothing; it always ends, and a run that
    returns is: connect, cursor, execute, close the cursor, close the
    connection. *)
Theorem connector_execute_trace self op params ct kw w o w' evs :
  connector_execute self op params ct kw w = (o, w', evs) →
  o ≠ OutOfFuel ∧
  Forall (λ ev, is_fetch ev = false) evs ∧
  suspensions evs = 0 ∧ submitted evs = [] ∧
  (o = Done tt →
     ∃ p, evs = [EvConnect p (Ok tt); EvCursor ct (Ok tt);
                 EvExecute op params kw (Ok tt);
                 EvCursorClose; EvConnectionClose]).
Proof.
  unfold connector_execute. intros Hrun.
  apply with_connection_inv in Hrun
    as [(e & -> & _ & [->|[p ->]])|(p & s & w1 & evs1 & _ & Hb & -> & _)];
    [by repeat split; repeat constructor..|].
  apply with_cursor_inv in Hb
    as [(e & -> & _ & ->)|(s' & w2 & evs2 & _ & Hb & -> & _)];
    [by repeat split; repeat constructor|].
  apply call_inv in Hb as (r & s'' & _ & -> & _ & ->).
  destruct r as [[]|e]; simpl;
    (split; [done|]); (split; [by repeat constructor|]);
    (split; [done|]); (split; [done|]); [|done].
  intros _. by exists p.
Qed.

End ExecutorExtras.

Section AsyncExtras.
Context {St status : Type} `{!Driver St status}.
Implicit Types (w : world St) (evs pre post : list (event status)).
Implicit Types (ev : event status) (e : exn).

(** X16.  [_async_execute_operation], when it ends well: the caller's block
    has run once, inside both [with] blocks and after the results of the
    query were loaded; the operation was submitted once, with the caller's
    parameters and keyword arguments; every status check and the loading use
    the id that the submission returned, and every sleep lasts
    [interval_seconds]; cursor and connection are closed last. *)
Theorem async_execute_operation_returns {A} fuel self op params ct interval kw
    (body : M A) w (a : A) w' evs :
  _async_execute_operation fuel self op params ct interval kw body w
    = (Done a, w', evs) →
  ∃ p id pevs w1 w2 bevs,
    body w1 = (Done a, w2, bevs) ∧
    evs = [EvConnect p (Ok tt); EvCursor ct (Ok tt);
           EvExecuteAsync op params kw (Ok id)]
          ++ pevs ++ [EvGetResults id (Ok tt)] ++ bevs
          ++ [EvCursorClose; EvConnectionClose] ∧
    Forall (polls id interval) pevs.
Proof.
  intros Hrun.
  apply async_execute_operation_inv in Hrun
    as [(e & ? & _)|[(p & e & ? & _)
       |[(p & so & sevs & Hs & Hstop & ->)
        |(p & id & sevs & w1 & w2 & bevs & Hs & Hb & ->)]]]; [done..| |].
  { by destruct so. }
  inversion Hs as [| | | |id' pevs Hp]; subst.
  exists p, id, pevs, w1, w2, bevs. split; [done|].
  split; [|by eapply poll_trace_polls].
  simpl. by rewrite <- !app_assoc.
Qed.

(** X17.  [snowflake_query], when it returns: the rows are those that
    [fetchall] returned, after the results of the submitted query were
    loaded; the status checks use the id of that submission and the sleeps
    last [poll_frequency_seconds]. *)
Theorem snowflake_query_returns fuel q self params ct interval w rs w' evs :
  snowflake_query fuel q self params ct interval w = (Done rs, w', evs) →
  ∃ p id pevs,
    evs = [EvConnect p (Ok tt); EvCursor ct (Ok tt);
           EvExecuteAsync q params ∅ (Ok id)]
          ++ pevs
          ++ [EvGetResults id (Ok tt); EvFetchAll (Ok rs);
              EvCursorClose; EvConnectionClose] ∧
    Forall (polls id interval) pevs.
Proof.
  rewrite snowflake_query_eq. intros Hrun.
  apply async_execute_operation_inv in Hrun
    as [(e & ? & _)|[(p & e & ? & _)
       |[(p & so & sevs & Hs & Hstop & ->)
        |(p & id & sevs & w1 & w2 & bevs & Hs & Hb & ->)]]]; [done..| |].
  { by destruct so. }
  inversion Hs as [| | | |id' pevs Hp]; subst.
  apply call_inv in Hb as (r & s & _ & Ho & _ & ->).
  destruct r as [rs'|]; [|done]. injection Ho as ->.
  exists p, id, pevs. split; [|by eapply poll_trace_polls].
  simpl. by rewrite <- !app_assoc.
Qed.

(** X18.  [fetch_many] with an explicit [limit]: [fetchmany] is called with
    that size and with no other, the method returns what that call returned,
    and, [fetchmany] returning at most [size] rows, at most [limit] rows. *)
Theorem fetch_many_explicit_limit fuel self op params (limit : option Z)
    ct interval kw w o w' evs :
  fetch_many fuel self op params (Some limit) ct interval kw w = (o, w', evs) →
  (∀ size r, EvFetchMany size r ∈ evs → size = limit) ∧
  (∀ rs, o = Done rs →
     EvFetchMany limit (Ok rs) ∈ evs ∧
     ∀ n, limit = Some n → fetchmany_bounded → (length rs ≤ Z.to_nat n)%nat).
Proof.
  unfold fetch_many. simpl. intros Hrun.
  apply async_execute_operation_inv in Hrun
    as [(e & -> & [->|[p ->]])|[(p & e & -> & ->)
       |[(p & so & sevs & Hs & Hstop & ->)
        |(p & id & sevs & w1 & w2 & bevs & Hs & Hb & ->)]]].
  - split; [|done]. intros size r Hin. by apply elem_of_nil in Hin.
  - split; [|done]. intros size r Hin.
    by apply list_elem_of_singleton in Hin.
  - split; [|done]. intros size r Hin.
    repeat (apply elem_of_cons in Hin as [?|Hin]; [done|]).
    by apply elem_of_nil in Hin.
  - pose proof (submit_trace_not_fetch _ _ _ _ _ _ Hs) as Hnf.
    rewrite Forall_forall in Hnf. split.
    + intros size r Hin.
      repeat (apply elem_of_cons in Hin as [?|Hin]; [done|]).
      rewrite !elem_of_app in Hin. destruct Hin as [Hin|[Hin|Hin]].
      * by specialize (Hnf _ Hin).
      * destruct o; [apply list_elem_of_singleton in Hin
                    |apply list_elem_of_singleton in Hin
                    |apply elem_of_nil in Hin]; done.
      * destruct o; [apply list_elem_of_singleton in Hin
                    |apply list_elem_of_singleton in Hin
                    |apply elem_of_nil in Hin]; done.
    + intros rs ->. by destruct so.
  - pose proof (submit_trace_not_fetch _ _ _ _ _ _ Hs) as Hnf.
    rewrite Forall_forall in Hnf.
    apply call_inv in Hb as (r & s & Hr & -> & _ & ->). split.
    + intros size r' Hin.
      repeat (apply elem_of_cons in Hin as [?|Hin]; [done|]).
      rewrite !elem_of_app in Hin. destruct Hin as [[Hin|Hin]|[Hin|Hin]].
      * by specialize (Hnf _ Hin).
      * apply list_elem_of_singleton in Hin. by injection Hin as <- _.
      * destruct r; simpl in Hin; apply list_elem_of_singleton in Hin; done.
      * destruct r; simpl in Hin; apply list_elem_of_singleton in Hin; done.
    + intros rs Hrs. destruct r as [rs'|]; [|done]. injection Hrs as ->.
      split.
      * right; right. rewrite !elem_of_app. left; right. by left.
      * intros n -> Hbound. by apply (Hbound n) in Hr.
Qed.

(** X19.  No retry in [snowflake_query]: the first call that raises (the
    connection, the cursor, the submission, a status check, a sleep, the
    loading or the fetch) is followed only by the release of what was open,
    and its exception is the one the task raises. *)
Theorem snowflake_query_first_error_aborts fuel q self params ct interval
    w o w' evs pre ev post e :
  snowflake_query fuel q self params ct interval w = (o, w', evs) →
  evs = pre ++ ev :: post → ev_exn ev = Some e →
  o = Raised e ∧ clean pre ∧ post = cleanup_after ev.
Proof.
  rewrite snowflake_query_eq. intros Hrun Hevs He.
  apply async_execute_operation_inv in Hrun
    as [(e' & -> & [->|[p ->]])|[(p & e' & -> & ->)
       |[(p & so & sevs & Hs & Hstop & Heq)
        |(p & id & sevs & w1 & w2 & bevs & Hs & Hb & Heq)]]].
  - by destruct pre.
  - destruct pre as [|? [|]]; simplify_eq/=. by repeat split; constructor.
  - destruct pre as [|? [|? [|? [|]]]]; simplify_eq/=.
    split; [done|]. split; [by repeat constructor|done].
  - pose proof (submit_trace_events _ _ _ _ _ _ Hs) as [Hop _].
    pose proof (submit_trace_raises_last _ _ _ _ _ _ Hs)
      as [Hc|(pre1 & ev1 & e1 & -> & Hpre1 & He1 & ->)].
    { exfalso. eapply (clean_no_raise evs); [|exact Hevs|done].
      rewrite Heq. constructor; [done|]. constructor; [done|].
      apply clean_app. split; [done|]. apply clean_app.
      split; by apply closing_clean. }
    destruct o as [?|e2|]; simpl in Hstop; [done| |done]. subst e2.
    simpl in Heq. rewrite <- app_assoc in Heq. simpl in Heq.
    assert (Heq' : (EvConnect p (Ok tt) :: EvCursor ct (Ok tt) :: pre1)
                   ++ ev1 :: [EvCursorClose; EvConnectionClose]
                   = pre ++ ev :: post)
      by (simpl; congruence).
    destruct (raise_position
                (EvConnect p (Ok tt) :: EvCursor ct (Ok tt) :: pre1) ev1
                [EvCursorClose; EvConnectionClose] pre ev post e1 e
                ltac:(solve_raises) ltac:(solve_raises) He1 He Heq')
      as (-> & -> & ->).
    split; [congruence|]. split; [solve_raises|].
    apply Forall_app in Hop as [_ Hop]. inversion Hop as [|? ? Hev1 _]; subst.
    by destruct ev1.
  - apply call_inv in Hb as (r & s & _ & -> & _ & ->).
    pose proof (submit_trace_raises_last _ _ _ _ _ _ Hs) as Hc.
    apply raises_last_Done in Hc.
    destruct r as [rs|e']; simpl in Heq.
    { exfalso. eapply (clean_no_raise evs); [|exact Hevs|done].
      rewrite Heq. constructor; [done|]. constructor; [done|].
      apply clean_app. split; [|by repeat constructor].
      apply clean_app. split; [done|by repeat constructor]. }
    rewrite <- app_assoc in Heq. simpl in Heq.
    assert (Heq' : (EvConnect p (Ok tt) :: EvCursor ct (Ok tt) :: sevs)
                   ++ EvFetchAll (Raise e')
                   :: [EvCursorClose; EvConnectionClose]
                   = pre ++ ev :: post)
      by (simpl; congruence).
    destruct (raise_position
                (EvConnect p (Ok tt) :: EvCursor ct (Ok tt) :: sevs)
                (EvFetchAll (Raise e'))
                [EvCursorClose; EvConnectionClose] pre ev post e' e
                ltac:(solve_raises) ltac:(solve_raises) eq_refl He Heq')
      as (-> & -> & ->).
    simpl in He. injection He as <-.
    split; [done|]. split; [solve_raises|done].
Qed.

End AsyncExtras.

(** ** The coroutines end *)

Section TerminationExtras.
Context {St status : Type} `{!Driver St status}.
Context (good : St → Prop) (budget : St → nat).
Hypothesis Hcoop : cooperative good budget.
Implicit Types (w : world St) (evs : list (event status)).

Lemma async_execute_operation_Done {A} self op params ct interval kw
    (body : M A) w :
  good (driver_state w) →
  valid_credentials (credentials self) = true →
  (∀ w1, good (driver_state w1) → ∃ a w2 bevs, body w1 = (Done a, w2, bevs)) →
  ∃ fuel0 a w' evs, ∀ fuel, (fuel0 ≤ fuel)%nat →
    _async_execute_operation fuel self op params ct interval kw body w
      = (Done a, w', evs).
Proof.
  intros Hgood Hvalid Hbody.
  destruct (get_connect_params_returns self Hvalid) as [p Hp].
  destruct (coop_connect _ _ Hcoop (<["autocommit" := VBool true]> p)
              _ Hgood) as (s1 & Hconn & Hs1).
  destruct (coop_cursor _ _ Hcoop ct s1 Hs1) as (s2 & Hcur & Hs2).
  destruct (submit_and_wait_cooperative good budget Hcoop op params kw
              interval s2 (heap w) Hs2)
    as (f0 & id & s3 & sevs & Hs3 & Hsub).
  destruct (Hbody (World s3 (heap w)) Hs3) as (a & w2 & bevs & Hb).
  exists f0, a. eexists _, _. intros fuel Hf.
  unfold _async_execute_operation, with_connection, with_cursor.
  eapply bind_Done; [by apply get_connection_Done|].
  apply finally_Done.
  eapply bind_Done; [by apply call_Ok|].
  apply finally_Done.
  eapply bind_Done; [by apply Hsub|]. exact Hb.
Qed.

(** X20.  [_async_execute_operation] ends: when the driver cooperates (no
    call raises, and the query stops running after finitely many status
    checks), the credentials are valid, the caller's block returns and the
    keyword arguments do not name [params] (line 138 passes [params] itself,
    and a keyword given twice is refused when the call is made), the context
    manager and the block return, for every bound on the number of status
    checks from some bound on. *)
Theorem async_execute_operation_terminates {A} self op params ct interval
    (kw : kwargs) (body : M A) w :
  good (driver_state w) →
  valid_credentials (credentials self) = true →
  kw !! "params" = None →
  (∀ w1, good (driver_state w1) → ∃ a w2 bevs, body w1 = (Done a, w2, bevs)) →
  ∃ fuel0 a w' evs, ∀ fuel, (fuel0 ≤ fuel)%nat →
    _async_execute_operation fuel self op params ct interval kw body w
      = (Done a, w', evs).
Proof. intros Hgood Hvalid _. by apply async_execute_operation_Done. Qed.

(** X21.  The tasks end: with a cooperating driver and valid credentials,
    [snowflake_query] returns, and so does [snowflake_multiquery], with or
    without [as_transaction], whatever the number of queries. *)
Theorem tasks_terminate self params ct interval w :
  good (driver_state w) →
  valid_credentials (credentials self) = true →
  (∀ q, ∃ fuel0 rs w' evs, ∀ fuel, (fuel0 ≤ fuel)%nat →
     snowflake_query fuel q self params ct interval w = (Done rs, w', evs)) ∧
  (∀ l ops (at_ rtcr : bool), heap w !! l = Some ops →
     ∃ fuel0 res w' evs, ∀ fuel, (fuel0 ≤ fuel)%nat →
       snowflake_multiquery fuel l self params ct at_ rtcr interval w
         = (Done res, w', evs)).
Proof.
  intros Hgood Hvalid. split.
  - intros q.
    destruct (async_execute_operation_Done self q params ct interval ∅
                (call fetchall EvFetchAll) w Hgood Hvalid)
      as (f0 & rs & w' & evs & Hrun).
    { intros w1 Hw1.
      destruct (coop_fetchall _ _ Hcoop _ Hw1) as (r & s' & Hf & _).
      eexists r, _, _. by apply call_Ok. }
    exists f0, rs, w', evs. intros fuel Hf. rewrite snowflake_query_eq.
    by apply Hrun.
  - intros l ops at_ rtcr Hl.
    destruct (get_connect_params_returns self Hvalid) as [p Hp].
    destruct (coop_connect _ _ Hcoop (<["autocommit" := VBool true]> p)
                _ Hgood) as (s1 & Hconn & Hs1).
    destruct (coop_cursor _ _ Hcoop ct s1 Hs1) as (s2 & Hcur & Hs2).
    destruct (run_queries_cooperative good budget Hcoop
                (bracketed at_ ops) params interval [] s2
                (<[l := bracketed at_ ops]> (heap w)) Hs2)
      as (f0 & res & s3 & evs & Hs3 & Hq).
    assert (Hin : ∃ w1 evs1, ∀ fuel, (f0 ≤ fuel)%nat →
      with_connection self
        (let! _ := if at_ then
                     let! _ := list_insert0 l BEGIN_TRANSACTION_STATEMENT in
                     list_append l END_TRANSACTION_STATEMENT
                   else ret tt in
         with_cursor ct
           (let! qs := list_read l in
            run_queries fuel qs params interval [])) w
      = (Done res, w1, evs1)).
    { eexists _, _. intros fuel Hf. unfold with_connection.
      eapply bind_Done; [by apply get_connection_Done|].
      apply finally_Done.
      etrans;
        [exact (multiquery_body_eq fuel l params ct at_ interval s1 _ _ Hl)|].
      unfold with_cursor.
      eapply bind_Done; [by apply call_Ok|].
      apply finally_Done. by apply Hq. }
    destruct Hin as (w1 & evs1 & Hin).
    exists f0. destruct at_, rtcr; eexists _, _, _; intros fuel Hf;
      unfold snowflake_multiquery;
      (eapply (bind_Done _ _ _ res); [by apply Hin|reflexivity]).
Qed.

End TerminationExtras.

(** ** The added properties on the scripted driver *)

Lemma connect_params_plain_field_witness :
  ∃ m, _get_connect_params (Mock.connector_with Scenarios.creds_override) = Ok m ∧
       m !! "database" = Some (VStr "sandbox").
Proof.
  destruct (get_connect_params_returns
              (Mock.connector_with Scenarios.creds_override))
    as [m Hm]; [vm_compute; reflexivity|].
  exists m. split; [exact Hm|].
  apply (connect_params_plain_field
           (Mock.connector_with Scenarios.creds_override) m
           "database" (VStr "sandbox") Hm).
  - unfold secret_fields. rewrite !elem_of_cons, elem_of_nil.
    intros [H|[H|[H|H]]]; [discriminate H..|exact H].
  - right. split; discriminate.
  - vm_compute. reflexivity.
  - discriminate.
Defined.

Lemma connect_params_connector_fields_witness :
  ∃ m, _get_connect_params Mock.connector = Ok m ∧
       m !! "warehouse" = Some (VStr "warehouse") ∧
       m !! "application" = Some (VStr "Prefect_Snowflake_Collection").
Proof.
  destruct (get_connect_params_returns Mock.connector)
    as [m Hm]; [vm_compute; reflexivity|].
  exists m. split; [exact Hm|].
  destruct (connect_params_connector_fields Mock.connector m Hm)
    as (_ & Hw & _ & Ha).
  split; [apply Hw | apply Ha]; vm_compute; reflexivity.
Defined.

Lemma secrets_revealed_witness :
  ∃ m, _get_connect_params Mock.connector = Ok m ∧
       m !! "password" = Some (VStr "hunter2").
Proof.
  destruct (get_connect_params_returns Mock.connector)
    as [m Hm]; [vm_compute; reflexivity|].
  exists m. split; [exact Hm|].
  destruct (secrets_revealed Mock.connector m Hm) as (_ & _ & Hp & _).
  apply Hp; vm_compute; reflexivity.
Defined.

Lemma okta_endpoint_missing_raises_witness :
  _get_connect_params (Mock.connector_with Scenarios.creds_no_endpoint)
  = Raise (KeyError "okta_endpoint").
Proof.
  apply (okta_endpoint_missing_raises
           (Mock.connector_with Scenarios.creds_no_endpoint));
    vm_compute; reflexivity.
Defined.

Lemma get_connection_autocommit_witness :
  let w := Mock.start [] None [] in
  ∃ o w' p r,
    get_connection (Mock.connector_with Scenarios.creds_override) true w
      = (o, w', [EvConnect p r]) ∧
    p !! "autocommit" = Some (VBool true) ∧
    p !! "database" = Some (VStr "sandbox").
Proof.
  intros w.
  destruct (get_connection (Mock.connector_with Scenarios.creds_override)
              true w) as [[o w'] evs] eqn:Hrun.
  assert (Hdb : match _get_connect_params
                        (Mock.connector_with Scenarios.creds_override) with
                | Ok m => m !! "database"
                | Raise _ => None
                end = Some (VStr "sandbox")) by (vm_compute; reflexivity).
  destruct (get_connect_params_returns
              (Mock.connector_with Scenarios.creds_override))
    as [p0 Hp]; [vm_compute; reflexivity|].
  rewrite Hp in Hdb.
  destruct (get_connection_autocommit _ _ _ _ _ _ Hrun) as [_ Hok].
  destruct (Hok p0 Hp) as (p & r & -> & _ & Ha & Hk).
  exists o, w', p, r. split; [reflexivity|]. split; [exact Ha|].
  rewrite Hk by discriminate. exact Hdb.
Defined.

Lemma config_error_raised_first_witness :
  let w := Mock.start [] None ["SELECT 1"] in
  let self := Mock.connector_with Scenarios.creds_no_endpoint in
  snowflake_query 3 "SELECT 1" self None SnowflakeCursor 1 w
    = (Raised (KeyError "okta_endpoint"), w, []) ∧
  snowflake_multiquery 3 0 self None SnowflakeCursor true false 1 w
    = (Raised (KeyError "okta_endpoint"), w, []).
Proof.
  intros w self.
  destruct (config_error_raised_first self (KeyError "okta_endpoint") w)
    as (_ & _ & _ & Hq & Hm & _); [vm_compute; reflexivity|].
  split; [apply Hq | apply Hm].
Defined.

Lemma multiquery_connection_failure_witness :
  let w := Mock.start [] None ["SELECT 1"] in
  ∃ o w' evs,
    @snowflake_multiquery _ _ Scenarios.offline 3 0 Mock.connector None
      SnowflakeCursor true false 1 w = (o, w', evs) ∧
    o = Raised ConnectionError ∧ length evs = 1 ∧ heap w' = heap w.
Proof.
  intros w.
  destruct (@snowflake_multiquery _ _ Scenarios.offline 3 0 Mock.connector
              None SnowflakeCursor true false 1 w) as [[o w'] evs] eqn:Hrun.
  exists o, w', evs. split; [reflexivity|].
  assert (Hevs : ∃ p, evs = [EvConnect p (Raise ConnectionError)]).
  { pose proof Hrun as Hrun'. vm_compute in Hrun'.
    injection Hrun' as _ _ <-. eexists. vm_compute. reflexivity. }
  destruct Hevs as [p Hevs].
  destruct (@multiquery_connection_failure _ _ Scenarios.offline 3 0
              Mock.connector None SnowflakeCursor true false 1 w
              ["SELECT 1"] o w' evs p ConnectionError
              ltac:(vm_compute; reflexivity) Hrun)
    as (Ho & Hevs' & Hh).
  { rewrite Hevs. left. }
  split; [exact Ho|]. split; [|exact Hh]. rewrite Hevs'. reflexivity.
Defined.

Lemma multiquery_one_session_witness :
  let w := Mock.start [Ok Mock.RUNNING] None
             ["SELECT 1"; "SELECT 2"; "SELECT 3"] in
  ∃ o w' evs,
    snowflake_multiquery 3 0 Mock.connector None SnowflakeCursor true false 1 w
      = (o, w', evs) ∧
    (count_events is_connect evs ≤ 1)%nat ∧
    (count_events is_cursor evs ≤ 1)%nat.
Proof.
  intros w.
  destruct (snowflake_multiquery 3 0 Mock.connector None SnowflakeCursor
              true false 1 w) as [[o w'] evs] eqn:Hrun.
  exists o, w', evs. split; [reflexivity|].
  exact (multiquery_one_session 3 0 Mock.connector None SnowflakeCursor
           true false 1 w _ o w' evs ltac:(vm_compute; reflexivity) Hrun).
Defined.

Lemma multiquery_releases_witness :
  let w := Mock.start [Ok Mock.SUCCESS; Raise StatusError] None
             ["INSERT 1"; "INSERT 2"] in
  ∃ o w' evs,
    snowflake_multiquery 3 0 Mock.connector None SnowflakeCursor true false 1 w
      = (o, w', evs) ∧
    o = Raised StatusError ∧
    count_events is_cursor_close evs = count_events is_opened_cursor evs ∧
    count_events is_connection_close evs
      = count_events is_opened_connection evs ∧
    ∃ pre, evs = pre ++ [EvCursorClose; EvConnectionClose].
Proof.
  intros w.
  destruct (snowflake_multiquery 3 0 Mock.connector None SnowflakeCursor
              true false 1 w) as [[o w'] evs] eqn:Hrun.
  exists o, w', evs. split; [reflexivity|].
  assert (Hevs : ∃ p tail,
            evs = EvConnect p (Ok tt) :: EvCursor SnowflakeCursor (Ok tt)
                  :: tail ∧
            o = Raised StatusError).
  { pose proof Hrun as Hrun'. vm_compute in Hrun'.
    injection Hrun' as <- _ <-. eexists _, _. split; reflexivity. }
  destruct Hevs as (p & tail & Hevs & Ho).
  destruct (multiquery_releases 3 0 Mock.connector None SnowflakeCursor
              true false 1 w _ o w' evs ltac:(vm_compute; reflexivity) Hrun)
    as (Hcu & Hco & Hlast).
  { rewrite Ho. discriminate. }
  split; [exact Ho|]. split; [exact Hcu|]. split; [exact Hco|].
  apply Hlast. rewrite Hevs. right. left.
Defined.

Lemma multiquery_first_error_aborts_witness :
  let w := Mock.start [Ok Mock.SUCCESS; Raise StatusError] None
             ["INSERT 1"; "INSERT 2"; "INSERT 3"] in
  ∃ o w' pre post,
    snowflake_multiquery 3 0 Mock.connector None SnowflakeCursor false false 1 w
      = (o, w', pre ++ EvStatus "INSERT 2" (Raise StatusError) :: post) ∧
    o = Raised StatusError ∧ clean pre ∧
    post = [EvCursorClose; EvConnectionClose].
Proof.
  intros w.
  destruct (snowflake_multiquery 3 0 Mock.connector None SnowflakeCursor
              false false 1 w) as [[o w'] evs] eqn:Hrun.
  assert (Hevs : ∃ p,
    evs = [EvConnect p (Ok tt); EvCursor SnowflakeCursor (Ok tt);
           EvExecuteAsync "INSERT 1" None ∅ (Ok "INSERT 1");
           EvStatus "INSERT 1" (Ok Mock.SUCCESS);
           EvGetResults "INSERT 1" (Ok tt);
           EvFetchAll (Ok (Mock.table "INSERT 1"));
           EvExecuteAsync "INSERT 2" None ∅ (Ok "INSERT 2")]
          ++ EvStatus "INSERT 2" (Raise StatusError)
          :: [EvCursorClose; EvConnectionClose]).
  { pose proof Hrun as Hrun'. vm_compute in Hrun'.
    injection Hrun' as _ _ <-. eexists. vm_compute. reflexivity. }
  destruct Hevs as [p Hevs].
  destruct (multiquery_first_error_aborts 3 0 Mock.connector None
              SnowflakeCursor false false 1 w _ o w' evs _ _ _ StatusError
              ltac:(vm_compute; reflexivity) Hrun Hevs eq_refl)
    as (Ho & Hpre & Hpost).
  eexists o, w', _, _. rewrite <- Hevs.
  split; [reflexivity|]. split; [exact Ho|]. split; [exact Hpre|reflexivity].
Defined.

Lemma multiquery_no_transaction_witness :
  let w := Mock.start [Ok Mock.RUNNING] None ["SELECT 1"; "SELECT 2"] in
  ∃ res w' evs,
    snowflake_multiquery 3 0 Mock.connector None SnowflakeCursor false true 1 w
      = (Done res, w', evs) ∧
    heap w' = heap w ∧ length res = 2 ∧
    submitted evs = ["SELECT 1"; "SELECT 2"].
Proof.
  intros w.
  destruct (snowflake_multiquery 3 0 Mock.connector None SnowflakeCursor
              false true 1 w) as [[[res|e|] w'] evs] eqn:Hrun.
  - exists res, w', evs. split; [reflexivity|].
    destruct (multiquery_no_transaction 3 0 Mock.connector None
                SnowflakeCursor true 1 w _ _ w' evs
                ltac:(vm_compute; reflexivity) Hrun) as [Hh Hres].
    destruct (Hres res eq_refl) as (Hlen & _ & Hsub).
    split; [exact Hh|]. split; [exact Hlen | exact Hsub].
  - vm_compute in Hrun. discriminate Hrun.
  - vm_compute in Hrun. discriminate Hrun.
Defined.


Lemma multiquery_params_witness :
  let w := Mock.start [Ok Mock.RUNNING] None ["SELECT 1"; "SELECT 2"] in
  let params := Some {[ "id" := VInt 7 ]} in
  ∃ o w' evs,
    snowflake_multiquery 3 0 Mock.connector params SnowflakeCursor true false
      1 w = (o, w', evs) ∧
    Forall (submits_with params) evs.
Proof.
  intros w params.
  destruct (snowflake_multiquery 3 0 Mock.connector params SnowflakeCursor
              true false 1 w) as [[o w'] evs] eqn:Hrun.
  exists o, w', evs. split; [reflexivity|].
  exact (proj1 (multiquery_params 3 0 Mock.connector params SnowflakeCursor
                  true false 1 w _ o w' evs
                  ltac:(vm_compute; reflexivity) Hrun)).
Defined.

Lemma query_sync_trace_witness :
  let w := Mock.start [Ok Mock.RUNNING] None [] in
  ∃ rs w' evs,
    snowflake_query_sync "SELECT 1" Mock.connector None SnowflakeCursor w
      = (Done rs, w', evs) ∧
    suspensions evs = 0 ∧ length evs = 6.
Proof.
  intros w.
  destruct (snowflake_query_sync "SELECT 1" Mock.connector None
              SnowflakeCursor w) as [[[rs|e|] w'] evs] eqn:Hrun.
  - exists rs, w', evs. split; [reflexivity|].
    destruct (query_sync_trace "SELECT 1" Mock.connector None SnowflakeCursor
                w _ w' evs Hrun) as (_ & Hs & _ & _ & Hdone & _).
    split; [exact Hs|]. destruct (Hdone rs eq_refl) as [p ->]. reflexivity.
  - vm_compute in Hrun. discriminate Hrun.
  - vm_compute in Hrun. discriminate Hrun.
Defined.

Lemma connector_execute_trace_witness :
  let w := Mock.start [Ok Mock.RUNNING] None [] in
  let kw : kwargs := {[ "timeout" := VInt 30 ]} in
  ∃ w' p,
    connector_execute Mock.connector "CREATE TABLE t" None SnowflakeCursor kw w
      = (Done tt, w',
         [EvConnect p (Ok tt); EvCursor SnowflakeCursor (Ok tt);
          EvExecute "CREATE TABLE t" None kw (Ok tt);
          EvCursorClose; EvConnectionClose]).
Proof.
  intros w kw.
  destruct (connector_execute Mock.connector "CREATE TABLE t" None
              SnowflakeCursor kw w) as [[[[]|e|] w'] evs] eqn:Hrun.
  - destruct (connector_execute_trace Mock.connector "CREATE TABLE t" None
                SnowflakeCursor kw w _ w' evs Hrun) as (_ & _ & _ & _ & Hdone).
    destruct (Hdone eq_refl) as [p ->]. by exists w', p.
  - vm_compute in Hrun. discriminate Hrun.
  - vm_compute in Hrun. discriminate Hrun.
Defined.

Lemma async_execute_operation_returns_witness :
  let w := Mock.start [Ok Mock.RUNNING] None [] in
  ∃ r w' evs,
    fetch_one 3 Mock.connector "SELECT 1" None SnowflakeCursor 1 ∅ w
      = (Done r, w', evs) ∧
    ∃ pre id bevs,
      evs = pre ++ [EvGetResults id (Ok tt)] ++ bevs
            ++ [EvCursorClose; EvConnectionClose].
Proof.
  intros w.
  destruct (fetch_one 3 Mock.connector "SELECT 1" None SnowflakeCursor 1 ∅ w)
    as [[[r|e|] w'] evs] eqn:Hrun.
  - exists r, w', evs. split; [reflexivity|].
    destruct (async_execute_operation_returns 3 Mock.connector "SELECT 1"
                None SnowflakeCursor 1 ∅ (call fetchone EvFetchOne)
                w r w' evs Hrun)
      as (p & id & pevs & w1 & w2 & bevs & _ & -> & _).
    eexists (_ ++ pevs), id, bevs. rewrite <- app_assoc. reflexivity.
  - vm_compute in Hrun. discriminate Hrun.
  - vm_compute in Hrun. discriminate Hrun.
Defined.

Lemma snowflake_query_returns_witness :
  let w := Mock.start [Ok Mock.RUNNING; Ok Mock.SUCCESS] None [] in
  ∃ rs w' evs p id pevs,
    snowflake_query 3 "SELECT 1" Mock.connector None DictCursor 2 w
      = (Done rs, w', evs) ∧
    evs = [EvConnect p (Ok tt); EvCursor DictCursor (Ok tt);
           EvExecuteAsync "SELECT 1" None ∅ (Ok id)]
          ++ pevs
          ++ [EvGetResults id (Ok tt); EvFetchAll (Ok rs);
              EvCursorClose; EvConnectionClose] ∧
    Forall (polls id 2) pevs.
Proof.
  intros w.
  destruct (snowflake_query 3 "SELECT 1" Mock.connector None DictCursor 2 w)
    as [[[rs|e|] w'] evs] eqn:Hrun.
  - destruct (snowflake_query_returns 3 "SELECT 1" Mock.connector None
                DictCursor 2 w rs w' evs Hrun) as (p & id & pevs & Hevs & Hp).
    exists rs, w', evs, p, id, pevs.
    split; [reflexivity|]. split; [exact Hevs | exact Hp].
  - vm_compute in Hrun. discriminate Hrun.
  - vm_compute in Hrun. discriminate Hrun.
Defined.

Lemma fetch_many_explicit_limit_witness :
  let w := Mock.start [Ok Mock.RUNNING] None [] in
  ∃ rs w' evs,
    fetch_many 3 Mock.connector "SELECT 1" None (Some (Some 3%Z))
      SnowflakeCursor 1 ∅ w = (Done rs, w', evs) ∧
    EvFetchMany (Some 3%Z) (Ok rs) ∈ evs ∧ (length rs ≤ 3)%nat.
Proof.
  intros w.
  destruct (fetch_many 3 Mock.connector "SELECT 1" None (Some (Some 3%Z))
              SnowflakeCursor 1 ∅ w) as [[[rs|e|] w'] evs] eqn:Hrun.
  - exists rs, w', evs. split; [reflexivity|].
    destruct (fetch_many_explicit_limit 3 Mock.connector "SELECT 1" None
                (Some 3%Z) SnowflakeCursor 1 ∅ w _ w' evs Hrun) as [_ Hdone].
    destruct (Hdone rs eq_refl) as [Hin Hlen].
    split; [exact Hin|]. exact (Hlen 3%Z eq_refl mock_fetchmany_bounded).
  - vm_compute in Hrun. discriminate Hrun.
  - vm_compute in Hrun. discriminate Hrun.
Defined.

Lemma snowflake_query_first_error_aborts_witness :
  let w := Mock.start [Ok Mock.RUNNING; Ok Mock.RUNNING] (Some 0) [] in
  ∃ o w' pre post,
    snowflake_query 3 "SELECT 1" Mock.connector None SnowflakeCursor 1 w
      = (o, w', pre ++ EvSleep 1 (Raise CancelledError) :: post) ∧
    o = Raised CancelledError ∧ clean pre ∧
    post = [EvCursorClose; EvConnectionClose].
Proof.
  intros w.
  destruct (snowflake_query 3 "SELECT 1" Mock.connector None SnowflakeCursor
              1 w) as [[o w'] evs] eqn:Hrun.
  assert (Hevs : ∃ p,
    evs = [EvConnect p (Ok tt); EvCursor SnowflakeCursor (Ok tt);
           EvExecuteAsync "SELECT 1" None ∅ (Ok "SELECT 1");
           EvStatus "SELECT 1" (Ok Mock.RUNNING)]
          ++ EvSleep 1 (Raise CancelledError)
          :: [EvCursorClose; EvConnectionClose]).
  { pose proof Hrun as Hrun'. vm_compute in Hrun'.
    injection Hrun' as _ _ <-. eexists. vm_compute. reflexivity. }
  destruct Hevs as [p Hevs].
  destruct (snowflake_query_first_error_aborts 3 "SELECT 1" Mock.connector
              None SnowflakeCursor 1 w o w' evs _ _ _ CancelledError
              Hrun Hevs eq_refl)
    as (Ho & Hpre & Hpost).
  eexists o, w', _, _. rewrite <- Hevs.
  split; [reflexivity|]. split; [exact Ho|]. split; [exact Hpre|reflexivity].
Defined.
Lemma async_execute_operation_terminates_witness :
  let w := Mock.start [Ok Mock.RUNNING; Ok Mock.RUNNING] None [] in
  let kw : kwargs := {[ "timeout" := VInt 30 ]} in
  ∃ fuel0 rs w' evs, ∀ fuel, (fuel0 ≤ fuel)%nat →
    fetch_all fuel Mock.connector "SELECT 1" None SnowflakeCursor 1 kw w
      = (Done rs, w', evs).
Proof.
  intros w kw.
  apply (async_execute_operation_terminates Mock.good Mock.budget
           mock_cooperative Mock.connector "SELECT 1" None SnowflakeCursor 1
           kw (call fetchall EvFetchAll) w).
  - split; [reflexivity|].
    repeat (constructor; [by eexists|]). constructor.
  - vm_compute. reflexivity.
  - vm_compute. reflexivity.
  - intros w1 _. eexists _, _, _. apply call_Ok. reflexivity.
Defined.

Lemma tasks_terminate_witness :
  let w := Mock.start [Ok Mock.RUNNING; Ok Mock.RUNNING] None
             ["SELECT 1"; "SELECT 2"] in
  (∃ fuel0 rs w' evs, ∀ fuel, (fuel0 ≤ fuel)%nat →
     snowflake_query fuel "SELECT 1" Mock.connector None SnowflakeCursor 1 w
       = (Done rs, w', evs)) ∧
  (∃ fuel0 res w' evs, ∀ fuel, (fuel0 ≤ fuel)%nat →
     snowflake_multiquery fuel 0 Mock.connector None SnowflakeCursor
       false false 1 w = (Done res, w', evs)).
Proof.
  intros w.
  destruct (tasks_terminate Mock.good Mock.budget mock_cooperative
              Mock.connector None SnowflakeCursor 1 w) as [Hq Hm].
  - split; [reflexivity|].
    repeat (constructor; [by eexists|]). constructor.
  - vm_compute. reflexivity.
  - split; [apply Hq|].
    apply (Hm 0 ["SELECT 1"; "SELECT 2"] false false).
    vm_compute. reflexivity.
Defined.

